(** * RMG-Py: the build manifest and the chemical-graph core

    The first part embeds [setup.py], the build manifest: the three lists of
    extension modules and the top-level statements that select among them
    from [sys.argv].  The second part models the chemical-graph core that
    the manifest declares (graph, molecule, group, symmetry): those modules
    are described by the specification only. *)

From Stdlib Require Import List String Ascii Bool Arith ZArith Lia Permutation.
Import ListNotations.

(* ---------------------------------------------------------------------- *)
(** ** The build manifest, [setup.py] *)

Module Setup.

Local Open Scope string_scope.

(** [distutils.extension.Extension(name, sources, include_dirs=None)];
    an omitted [include_dirs] is the empty list. *)
Record Extension : Type := mkExtension {
  name : string;
  sources : list string;
  include_dirs : list string
}.

Definition getMainExtensionModules : list Extension := [
  (* Molecules and molecular representations *)
  mkExtension "rmgpy.molecule.atomtype" ["rmgpy/molecule/atomtype.py"] ["."];
  mkExtension "rmgpy.molecule.element" ["rmgpy/molecule/element.py"] ["."];
  mkExtension "rmgpy.molecule.graph" ["rmgpy/molecule/graph.py"] ["."];
  mkExtension "rmgpy.molecule.group" ["rmgpy/molecule/group.py"] ["."];
  mkExtension "rmgpy.molecule.molecule" ["rmgpy/molecule/molecule.py"] ["."];
  mkExtension "rmgpy.molecule.symmetry" ["rmgpy/molecule/symmetry.py"] ["."];
  (* Statistical mechanics *)
  mkExtension "rmgpy.statmech.mode" ["rmgpy/statmech/mode.pyx"] [];
  mkExtension "rmgpy.statmech.schrodinger" ["rmgpy/statmech/schrodinger.pyx"] [];
  (* Miscellaneous *)
  mkExtension "rmgpy.constants" ["rmgpy/constants.py"] ["."];
  mkExtension "rmgpy.kinetics" ["rmgpy/kinetics.py"] ["."];
  mkExtension "rmgpy.quantity" ["rmgpy/quantity.py"] ["."];
  mkExtension "rmgpy.reaction" ["rmgpy/reaction.py"] ["."];
  mkExtension "rmgpy.species" ["rmgpy/species.py"] ["."];
  mkExtension "rmgpy._statmech" ["rmgpy/_statmech.pyx"] ["."];
  mkExtension "rmgpy.statmech" ["rmgpy/statmech.py"] ["."];
  mkExtension "rmgpy.thermo" ["rmgpy/thermo.py"] ["."]
].

Definition getMeasureExtensionModules : list Extension := [
  mkExtension "rmgpy.measure._network" ["rmgpy/measure/_network.pyx"] ["."];
  mkExtension "rmgpy.measure.collision" ["rmgpy/measure/collision.pyx"] ["."];
  mkExtension "rmgpy.measure.reaction" ["rmgpy/measure/reaction.pyx"] ["."];
  mkExtension "rmgpy.measure.msc" ["rmgpy/measure/msc.pyx"] ["."];
  mkExtension "rmgpy.measure.rs" ["rmgpy/measure/rs.pyx"] ["."];
  mkExtension "rmgpy.measure.cse" ["rmgpy/measure/cse.pyx"] ["."];
  mkExtension "rmgpy.measure.me" ["rmgpy/measure/me.pyx"] ["."];
  mkExtension "rmgpy.constants" ["rmgpy/constants.py"] ["."];
  mkExtension "rmgpy.quantity" ["rmgpy/quantity.py"] ["."];
  mkExtension "rmgpy._statmech" ["rmgpy/_statmech.pyx"] ["."]
].

Definition getSolverExtensionModules : list Extension := [
  mkExtension "rmgpy.solver.base" ["rmgpy/solver/base.pyx"] ["."];
  mkExtension "rmgpy.solver.simple" ["rmgpy/solver/simple.pyx"] ["."]
].

(** Python's exceptions, as far as the selection can raise them. *)
Inductive exn : Type := ValueError.

Inductive result (A : Type) : Type :=
| Ok (a : A)
| Raise (e : exn).
Arguments Ok {A} a.
Arguments Raise {A} e.

Definition bind {A B : Type} (r : result A) (k : A -> result B) : result B :=
  match r with
  | Ok a => k a
  | Raise e => Raise e
  end.

Notation "x <- c ;; k" := (bind c (fun x => k))
  (at level 61, c at next level, right associativity).

(** [x in l] on a list of strings. *)
Definition contains (x : string) (l : list string) : bool :=
  existsb (String.eqb x) l.

(** [l.remove(x)]: the first item equal to [x] is dropped; [ValueError]
    when there is none. *)
Fixpoint list_remove (x : string) (l : list string) : result (list string) :=
  match l with
  | [] => Raise ValueError
  | y :: l' =>
      if String.eqb y x then Ok l'
      else r <- list_remove x l' ;; Ok (y :: r)
  end.

(** The two objects the selection reads and mutates. *)
Record state : Type := mkState {
  sys_argv : list string;
  ext_modules : list Extension
}.

(** [ext_modules.extend(mods)] *)
Definition extend (mods : list Extension) (st : state) : state :=
  mkState (sys_argv st) (ext_modules st ++ mods).

(** [sys.argv.remove(x)] *)
Definition argv_remove (x : string) (st : state) : result state :=
  a <- list_remove x (sys_argv st) ;; Ok (mkState a (ext_modules st)).

(** The bodies of the four branches, lines 106-108, 111-112, 115-116 and
    119-120. *)
Definition install_branch (st : state) : result state :=
  Ok (extend (getSolverExtensionModules)
        (extend (getMeasureExtensionModules)
           (extend (getMainExtensionModules) st))).

Definition main_branch (st : state) : result state :=
  st1 <- argv_remove "main" st ;; Ok (extend (getMainExtensionModules) st1).

Definition measure_branch (st : state) : result state :=
  st1 <- argv_remove "measure" st ;; Ok (extend (getMeasureExtensionModules) st1).

Definition solver_branch (st : state) : result state :=
  st1 <- argv_remove "solver" st ;; Ok (extend (getSolverExtensionModules) st1).

(** Lines 103-120: [ext_modules = []] and the [if]/[elif] chain. *)
Definition select_ext_modules (argv : list string) : result state :=
  let st := mkState argv [] in
  if contains "install" (sys_argv st) then install_branch st
  else if contains "main" (sys_argv st) then main_branch st
  else if contains "measure" (sys_argv st) then measure_branch st
  else if contains "solver" (sys_argv st) then solver_branch st
  else Ok st.

(** The number of entries of a module list that carry a given name. *)
Definition count_name (n : string) (mods : list Extension) : nat :=
  List.length (filter (fun e => String.eqb (name e) n) mods).

(** The entries of a module list that live under a package prefix. *)
Definition under (pkg : string) (mods : list Extension) : list Extension :=
  filter (fun e => String.prefix pkg (name e)) mods.

(** Modelled from the spec: the logical units of the chemical-graph core
    that section 2 lists. *)
Inductive LogicalUnit : Type :=
| GraphCoreUnit
| RingPerceptionUnit
| MoleculeModelUnit
| GroupModelUnit
| IsomorphismEngineUnit
| SymmetryCounterUnit.

Definition logical_units : list LogicalUnit :=
  [GraphCoreUnit; RingPerceptionUnit; MoleculeModelUnit; GroupModelUnit;
   IsomorphismEngineUnit; SymmetryCounterUnit].

End Setup.

(* ---------------------------------------------------------------------- *)
(** ** Graph Core

    The manifest declares the modules [rmgpy.molecule.graph], [molecule],
    [group] and [symmetry]; what they do is modelled here from the
    specification. *)

Module GraphCore.

(** Vertices and edges are referenced by opaque integer identifiers. *)
Abbreviation VertexId := nat.
Abbreviation EdgeId := nat.

(** Modelled from the spec: the construction errors of the taxonomy of
    section 7 (duplicate edge, dangling endpoint, empty label set); a
    self-loop, which the Edge of section 3 excludes, is malformed as well. *)
Inductive ConstructionError : Type :=
| DuplicateEdge
| UnknownVertex
| EmptyLabelSet
| SelfLoop.

(** Modelled from the spec: the labels of a vertex or an edge are a set
    of acceptable specifiers (section 3), which may not be empty. *)
Class LabelSet (L : Type) : Type := {
  is_empty : L -> bool
}.

Section Graphs.

Context {VL EL : Type} {VLS : LabelSet VL} {ELS : LabelSet EL}.

(** Modelled from the spec: the Edge of section 3, an unordered pair of
    vertex identifiers with its label set. *)
Record Edge : Type := mkEdge {
  edge_id : EdgeId;
  endpoint1 : VertexId;
  endpoint2 : VertexId;
  edge_labels : EL
}.

(** Modelled from the spec: the Graph of section 3 as the arena of the
    design notes; vertices and edges are kept in insertion order and are
    referenced by opaque integer identifiers handed out by two counters. *)
Record Graph : Type := mkGraph {
  vertices : list (VertexId * VL);
  edges : list Edge;
  next_vertex : VertexId;
  next_edge : EdgeId
}.

Definition empty_graph : Graph := mkGraph [] [] 0 0.

Definition vertex_ids (g : Graph) : list VertexId := map fst (vertices g).

Definition mem (v : VertexId) (l : list VertexId) : bool :=
  existsb (Nat.eqb v) l.

Definition has_vertex (g : Graph) (v : VertexId) : bool :=
  mem v (vertex_ids g).

(** An edge joins the unordered pair [{u, v}]. *)
Definition joins (u v : VertexId) (e : Edge) : bool :=
  (Nat.eqb (endpoint1 e) u && Nat.eqb (endpoint2 e) v)
  || (Nat.eqb (endpoint1 e) v && Nat.eqb (endpoint2 e) u).

Definition has_edge (g : Graph) (u v : VertexId) : bool :=
  existsb (joins u v) (edges g).

Definition vertex_labels (g : Graph) (v : VertexId) : option VL :=
  option_map snd (find (fun p => Nat.eqb (fst p) v) (vertices g)).

Definition edge_between (g : Graph) (u v : VertexId) : option EL :=
  option_map edge_labels (find (joins u v) (edges g)).

(** Modelled from the spec: [addVertex(labels) -> VertexId]; an empty
    label set is a construction error (sections 3 and 7). *)
Definition addVertex (labels : VL) (g : Graph)
  : ConstructionError + VertexId * Graph :=
  if is_empty labels then inl EmptyLabelSet
  else inr (next_vertex g,
            mkGraph (vertices g ++ [(next_vertex g, labels)]) (edges g)
                    (S (next_vertex g)) (next_edge g)).

(** Modelled from the spec: [addEdge(v1, v2, labels) -> EdgeId] of section
    4.1, with its two failures in the order the contract lists them; a
    self-loop and an empty label set, which sections 3 and 7 exclude at
    build time, are refused as well. *)
Definition addEdge (v1 v2 : VertexId) (labels : EL) (g : Graph)
  : ConstructionError + EdgeId * Graph :=
  if has_edge g v1 v2 then inl DuplicateEdge
  else if negb (has_vertex g v1 && has_vertex g v2) then inl UnknownVertex
  else if Nat.eqb v1 v2 then inl SelfLoop
  else if is_empty labels then inl EmptyLabelSet
  else inr (next_edge g,
            mkGraph (vertices g)
                    (edges g ++ [mkEdge (next_edge g) v1 v2 labels])
                    (next_vertex g) (S (next_edge g))).

(** Modelled from the spec: [removeEdge(e)] and [removeVertex(v)], the
    latter also removing the incident edges. *)
Definition removeEdge (e : EdgeId) (g : Graph) : Graph :=
  mkGraph (vertices g)
          (filter (fun x => negb (Nat.eqb (edge_id x) e)) (edges g))
          (next_vertex g) (next_edge g).

Definition removeVertex (v : VertexId) (g : Graph) : Graph :=
  mkGraph (filter (fun p => negb (Nat.eqb (fst p) v)) (vertices g))
          (filter (fun x => negb (Nat.eqb (endpoint1 x) v || Nat.eqb (endpoint2 x) v))
                  (edges g))
          (next_vertex g) (next_edge g).

(** Modelled from the spec: [neighbors(v)], listed in insertion order of
    the vertices so that traversals are reproducible. *)
Definition neighbors (g : Graph) (v : VertexId) : list VertexId :=
  filter (has_edge g v) (vertex_ids g).

Definition degree (g : Graph) (v : VertexId) : nat :=
  List.length (neighbors g v).

(** The invariants of the data model, as checks. *)
Fixpoint distinct (l : list VertexId) : bool :=
  match l with
  | [] => true
  | x :: l' => negb (mem x l') && distinct l'
  end.

Definition endpoints_known (g : Graph) : bool :=
  forallb (fun e => has_vertex g (endpoint1 e) && has_vertex g (endpoint2 e))
          (edges g).

Definition no_self_loops (g : Graph) : bool :=
  forallb (fun e => negb (Nat.eqb (endpoint1 e) (endpoint2 e))) (edges g).

Fixpoint no_parallel (es : list Edge) : bool :=
  match es with
  | [] => true
  | e :: es' =>
      negb (existsb (joins (endpoint1 e) (endpoint2 e)) es') && no_parallel es'
  end.

Definition simple_graph (g : Graph) : bool :=
  distinct (vertex_ids g) && endpoints_known g
  && no_self_loops g && no_parallel (edges g).

(** Modelled from the spec: the invariants of section 3 that the
    construction operations maintain: identities are distinct and below
    the counters, no edge dangles, no edge is a self-loop, an unordered
    pair carries at most one edge, and no label set is empty. *)
Record wf (g : Graph) : Prop := mkWf {
  wf_distinct : distinct (vertex_ids g) = true;
  wf_known : endpoints_known g = true;
  wf_loops : no_self_loops g = true;
  wf_parallel : no_parallel (edges g) = true;
  wf_vertex_ids : Forall (fun v => v < next_vertex g) (vertex_ids g);
  wf_edge_ids : Forall (fun e => edge_id e < next_edge g) (edges g);
  wf_vertex_labels : Forall (fun p => is_empty (snd p) = false) (vertices g);
  wf_edge_labels : Forall (fun e => is_empty (edge_labels e) = false) (edges g)
}.

(** Breadth-first traversal from a queue of start vertices; [adj] gives the
    neighbours to follow.  Every vertex enters the queue at most once, so
    a fuel of one more than the number of vertices is never used up
    ([reach_fuel], [bfs_fuel] and [components_fuel] below). *)
Fixpoint reach (fuel : nat) (adj : VertexId -> list VertexId)
    (visited queue : list VertexId) : list VertexId :=
  match fuel with
  | 0 => visited
  | S fuel' =>
      match queue with
      | [] => visited
      | u :: queue' =>
          let fresh := filter (fun w => negb (mem w visited)) (adj u) in
          reach fuel' adj (visited ++ fresh) (queue' ++ fresh)
      end
  end.

Definition component_of (g : Graph) (s : VertexId) : list VertexId :=
  reach (S (List.length (vertices g))) (neighbors g) [s] [s].

Fixpoint components (fuel : nat) (g : Graph) (remaining : list VertexId)
  : list (list VertexId) :=
  match fuel with
  | 0 => []
  | S fuel' =>
      match remaining with
      | [] => []
      | s :: _ =>
          let c := component_of g s in
          c :: components fuel' g (filter (fun v => negb (mem v c)) remaining)
      end
  end.

(** Modelled from the spec: [connectedComponents()] and [isConnected()]. *)
Definition connectedComponents (g : Graph) : list (list VertexId) :=
  components (List.length (vertices g)) g (vertex_ids g).

Definition isConnected (g : Graph) : bool :=
  Nat.leb (List.length (connectedComponents g)) 1.

(** Breadth-first shortest path to [target]; the queue holds the paths
    walked so far, newest vertex first. *)
Fixpoint bfs (fuel : nat) (adj : VertexId -> list VertexId) (target : VertexId)
    (visited : list VertexId) (queue : list (list VertexId))
  : option (list VertexId) :=
  match fuel with
  | 0 => None
  | S fuel' =>
      match queue with
      | [] => None
      | [] :: queue' => bfs fuel' adj target visited queue'
      | (u :: path) :: queue' =>
          if Nat.eqb u target then Some (rev (u :: path))
          else
            let fresh := filter (fun w => negb (mem w visited)) (adj u) in
            bfs fuel' adj target (visited ++ fresh)
                (queue' ++ map (fun w => w :: u :: path) fresh)
      end
  end.

(** [x] comes right before [y] in the list. *)
Definition next_to (l : list VertexId) (x y : VertexId) : Prop :=
  exists l1 l2, l = l1 ++ x :: y :: l2.

(** What holds of a path in the queue of [bfs], started at [a]: the path
    is written backwards, ends in [a], repeats no vertex, has been
    visited, and each of its vertices is reached from the one before. *)
Definition queued_path (adj : VertexId -> list VertexId) (a : VertexId)
    (visited p : list VertexId) : Prop :=
  (exists q, p = q ++ [a])
  /\ NoDup p
  /\ incl p visited
  /\ forall x y, next_to p x y -> In x (adj y).

(** The unordered pairs [{a, b}] and [{x, y}] are the same. *)
Definition same_pair (a b x y : VertexId) : bool :=
  (Nat.eqb a x && Nat.eqb b y) || (Nat.eqb a y && Nat.eqb b x).

(** The neighbours of [x] when the edge [{a, b}] is left out. *)
Definition neighbors_without (g : Graph) (a b x : VertexId) : list VertexId :=
  filter (fun y => negb (same_pair a b x y)) (neighbors g x).

(** A shortest path from [a] to [b] that does not use the edge [{a, b}]. *)
Definition path_avoiding (g : Graph) (a b : VertexId) : option (list VertexId) :=
  bfs (S (List.length (vertices g))) (neighbors_without g a b) b [a] [[a]].

(** Modelled from the spec: ring-bond detection; an edge is a ring bond
    when its endpoints stay connected without it. *)
Definition is_ring_bond (g : Graph) (a b : VertexId) : bool :=
  match path_avoiding g a b with
  | Some _ => true
  | None => false
  end.

Definition in_ring (g : Graph) (v : VertexId) : bool :=
  existsb (is_ring_bond g v) (neighbors g v).

End Graphs.

Arguments Edge : clear implicits.
Arguments Graph : clear implicits.

End GraphCore.

(* ---------------------------------------------------------------------- *)
(** ** Ring Perception *)

Module RingPerception.

Import GraphCore.

(** A ring is the sequence of its vertices; its last vertex is joined to
    its first. *)
Definition Ring : Type := list VertexId.

Fixpoint path_pairs (first : VertexId) (r : list VertexId)
  : list (VertexId * VertexId) :=
  match r with
  | [] => []
  | [x] => [(x, first)]
  | x :: ((y :: _) as r') => (x, y) :: path_pairs first r'
  end.

Definition ring_pairs (r : Ring) : list (VertexId * VertexId) :=
  match r with
  | [] => []
  | x :: _ => path_pairs x r
  end.

(** The ring runs through the edge [{a, b}]. *)
Definition covers (a b : VertexId) (r : Ring) : bool :=
  existsb (fun p => same_pair a b (fst p) (snd p)) (ring_pairs r).

(** Two rings are the same when they run through the same edges. *)
Definition same_ring (r1 r2 : Ring) : bool :=
  forallb (fun p => covers (fst p) (snd p) r2) (ring_pairs r1)
  && forallb (fun p => covers (fst p) (snd p) r1) (ring_pairs r2).

Fixpoint dedupe (rs : list Ring) : list Ring :=
  match rs with
  | [] => []
  | r :: rs' => r :: filter (fun r' => negb (same_ring r r')) (dedupe rs')
  end.

(** Edge sets over GF(2): a ring as the list of its edges, each written
    with the smaller endpoint first, and the sum of two such lists. *)
Definition norm_pair (p : VertexId * VertexId) : VertexId * VertexId :=
  if Nat.leb (fst p) (snd p) then p else (snd p, fst p).

Definition pair_eqb (p q : VertexId * VertexId) : bool :=
  Nat.eqb (fst p) (fst q) && Nat.eqb (snd p) (snd q).

Definition edge_vector (r : Ring) : list (VertexId * VertexId) :=
  map norm_pair (ring_pairs r).

Definition vec_add (x y : list (VertexId * VertexId))
  : list (VertexId * VertexId) :=
  filter (fun p => negb (existsb (pair_eqb p) y)) x
  ++ filter (fun p => negb (existsb (pair_eqb p) x)) y.

(** One step of the elimination: a basis vector is added to [x] when [x]
    contains its pivot, the first edge of the basis vector. *)
Definition reduce_by (x b : list (VertexId * VertexId))
  : list (VertexId * VertexId) :=
  match b with
  | [] => x
  | pivot :: _ => if existsb (pair_eqb pivot) x then vec_add x b else x
  end.

(** The rings of [rs] that are independent of the ones before them, with
    the echelon basis built so far. *)
Fixpoint independent_rings (basis : list (list (VertexId * VertexId)))
    (rs : list Ring) : list Ring :=
  match rs with
  | [] => []
  | r :: rs' =>
      match fold_left reduce_by basis (edge_vector r) with
      | [] => independent_rings basis rs'
      | x => r :: independent_rings (basis ++ [x]) rs'
      end
  end.

Section Sssr.

Context {VL EL : Type}.

(** Modelled from the spec: a shortest cycle through an edge, found by
    the breadth-first shortest-path search between its endpoints with the
    edge itself excluded. *)
Definition shortest_cycle (g : Graph VL EL) (e : Edge EL) : option Ring :=
  path_avoiding g (endpoint1 e) (endpoint2 e).

(** Modelled from the spec: the rings accepted while going through the
    edges in insertion order; an edge already covered by an accepted ring
    is passed over. *)
Definition accept_ring (g : Graph VL EL) (accepted : list Ring) (e : Edge EL)
  : list Ring :=
  if existsb (covers (endpoint1 e) (endpoint2 e)) accepted then accepted
  else
    match shortest_cycle g e with
    | Some r => accepted ++ [r]
    | None => accepted
    end.

Definition accepted_rings (g : Graph VL EL) : list Ring :=
  fold_left (accept_ring g) (edges g) [].

(** The cycle rank [|E| - |V| + #components]. *)
Definition cycle_rank (g : Graph VL EL) : Z :=
  (Z.of_nat (List.length (edges g)) - Z.of_nat (List.length (vertices g))
   + Z.of_nat (List.length (connectedComponents g)))%Z.

(** Modelled from the spec: one reading of the sketch of [sssr(graph)] in
    section 4.2, which leaves the algorithm open: a single pass over the
    edges in insertion order, the shortest cycle through an edge found by
    one breadth-first search between its endpoints with the edge left
    out, the accepted rings de-duplicated and at most [cycle_rank]
    independent ones kept.  What the facts below say holds of this
    reading. *)
Definition sssr (g : Graph VL EL) : list Ring :=
  firstn (Z.to_nat (cycle_rank g))
         (independent_rings [] (dedupe (accepted_rings g))).

(** A cycle of the graph: at least three distinct vertices, each joined
    to the next and the last to the first. *)
Definition is_cycle (g : Graph VL EL) (c : Ring) : Prop :=
  3 <= List.length c
  /\ NoDup c
  /\ forall p, In p (ring_pairs c) -> has_edge g (fst p) (snd p) = true.

Definition acyclic (g : Graph VL EL) : Prop :=
  forall c, ~ is_cycle g c.

End Sssr.

End RingPerception.

(* ---------------------------------------------------------------------- *)
(** ** Molecule Model and Group Model *)

Module Chem.

Import GraphCore.

Local Open Scope string_scope.

(** Modelled from the spec: the concrete label of a Molecule vertex. *)
Record Atom : Type := mkAtom {
  element : string;
  isotope : nat;
  radical_electrons : nat;
  lone_pairs : nat;
  charge : Z
}.

(** Modelled from the spec: the concrete label of a Molecule edge. *)
Inductive BondOrder : Type := Single | Double | Triple | Aromatic.

(** Modelled from the spec: the label of a Group edge, a set of bond
    orders or the wildcard that accepts any bond. *)
Inductive BondPattern : Type :=
| AnyBond
| OneOf (orders : list BondOrder).

Definition Molecule : Type := Graph Atom BondOrder.
Definition Group : Type := Graph (list Atom) BondPattern.

Definition atom_eqb (a b : Atom) : bool :=
  String.eqb (element a) (element b)
  && Nat.eqb (isotope a) (isotope b)
  && Nat.eqb (radical_electrons a) (radical_electrons b)
  && Nat.eqb (lone_pairs a) (lone_pairs b)
  && Z.eqb (charge a) (charge b).

Definition bond_eqb (a b : BondOrder) : bool :=
  match a, b with
  | Single, Single | Double, Double | Triple, Triple | Aromatic, Aromatic => true
  | _, _ => false
  end.

(** A concrete label stands for the set of itself alone; the label sets
    of a Group are empty when they list nothing. *)
#[global] Instance atom_labels : LabelSet Atom :=
  {| is_empty := fun _ => false |}.

#[global] Instance bond_labels : LabelSet BondOrder :=
  {| is_empty := fun _ => false |}.

#[global] Instance atom_set_labels : LabelSet (list Atom) :=
  {| is_empty := fun l => match l with [] => true | _ :: _ => false end |}.

#[global] Instance bond_pattern_labels : LabelSet BondPattern :=
  {| is_empty := fun b => match b with
                          | AnyBond => false
                          | OneOf [] => true
                          | OneOf (_ :: _) => false
                          end |}.

(** Modelled from the spec: [matchesLabel(vertexLabelSet, candidate)] of
    section 4.4, set membership. *)
Definition matchesLabel (accepted : list Atom) (candidate : Atom) : bool :=
  existsb (atom_eqb candidate) accepted.

(** Modelled from the spec: the edge-label predicate of section 4.4; the
    wildcard matches every bond order. *)
Definition matchesBond (accepted : BondPattern) (candidate : BondOrder) : bool :=
  match accepted with
  | AnyBond => true
  | OneOf orders => existsb (bond_eqb candidate) orders
  end.

End Chem.

(* ---------------------------------------------------------------------- *)
(** ** Isomorphism Engine *)

Module Engine.

Import GraphCore.

(** Modelled from the spec: the Mapping of section 3, pattern (or source)
    vertex to target vertex; the pair matched last comes first. *)
Definition Mapping : Type := list (VertexId * VertexId).

Definition image (m : Mapping) (v : VertexId) : option VertexId :=
  option_map snd (find (fun p => Nat.eqb (fst p) v) m).

Definition preimage (m : Mapping) (w : VertexId) : option VertexId :=
  option_map fst (find (fun p => Nat.eqb (snd p) w) m).

(** The mapping as a function, the identity off its domain. *)
Definition apply (m : Mapping) (v : VertexId) : VertexId :=
  match image m v with
  | Some w => w
  | None => v
  end.

Definition unapply (m : Mapping) (w : VertexId) : VertexId :=
  match preimage m w with
  | Some v => v
  | None => w
  end.

(** First [f], then [g]. *)
Definition compose (f g : Mapping) : Mapping :=
  map (fun p => (fst p, apply g (snd p))) f.

Definition inverse (f : Mapping) : Mapping :=
  map (fun p => (fst p, unapply f (fst p))) f.

(** Modelled from the spec: the outcomes of a match query (sections 4.5,
    5 and 7). *)
Inductive Outcome : Type :=
| Match (m : Mapping)
| NoMatch
| SearchAborted
| InvalidInput.

(** Modelled from the spec: the cheap invariant of step 1. *)
Record Invariant (VL : Type) : Type := mkInvariant {
  inv_degree : nat;
  inv_neighbor_labels : list VL;
  inv_in_ring : bool
}.
Arguments mkInvariant {VL} _ _ _.

Definition invariant {VL EL : Type} (g : Graph VL EL) (v : VertexId)
  : Invariant VL :=
  mkInvariant (degree g v)
    (flat_map (fun u => match vertex_labels g u with
                        | Some l => [l]
                        | None => []
                        end) (neighbors g v))
    (in_ring g v).

(** Stable sort by descending key: [v] goes in front of the first vertex
    whose key is not larger. *)
Fixpoint insert_by (key : VertexId -> nat) (v : VertexId) (l : list VertexId)
  : list VertexId :=
  match l with
  | [] => [v]
  | x :: l' =>
      if Nat.leb (key x) (key v) then v :: x :: l'
      else x :: insert_by key v l'
  end.

Fixpoint sort_by (key : VertexId -> nat) (l : list VertexId) : list VertexId :=
  match l with
  | [] => []
  | v :: l' => insert_by key v (sort_by key l')
  end.

(** Modelled from the spec: step 2, the order in which the pattern
    vertices are matched; how selective an invariant is, is left to the
    caller.  The invariant decides the order only, never what is found. *)
Definition search_order {VL EL : Type} (selectivity : Invariant VL -> nat)
    (g : Graph VL EL) : list VertexId :=
  sort_by (fun v => selectivity (invariant g v)) (vertex_ids g).

(** The caller's step budget is used up. *)
Definition exceeded (bound : option nat) (steps : nat) : bool :=
  match bound with
  | Some b => Nat.leb b steps
  | None => false
  end.

(** The loop over the candidates of one vertex, stopping at the first
    one that leads to something else than a dead end; the budget is
    checked before each step. *)
Fixpoint try_each (bound : option nat) (k : VertexId -> nat -> Outcome * nat)
    (cands : list VertexId) (steps : nat) : Outcome * nat :=
  match cands with
  | [] => (NoMatch, steps)
  | w :: cands' =>
      if exceeded bound steps then (SearchAborted, steps)
      else
        match k w (S steps) with
        | (NoMatch, steps') => try_each bound k cands' steps'
        | r => r
        end
  end.

Section Search.

Context {PV PE TV TE : Type}.

(** The pluggable compatibility predicates, and the mode: [exact] for
    exact isomorphism and automorphisms, otherwise subgraph. *)
Variable vertex_ok : PV -> TV -> bool.
Variable edge_ok : PE -> TE -> bool.
Variable exact : bool.
Variable P : Graph PV PE.
Variable T : Graph TV TE.

Definition vertex_feasible (v w : VertexId) : bool :=
  match vertex_labels P v, vertex_labels T w with
  | Some pl, Some tl => vertex_ok pl tl
  | _, _ => false
  end.

(** Modelled from the spec: step 3, the constraint an already mapped
    pair [(v', w')] puts on mapping [v] to [w]. *)
Definition edge_feasible (v w v' w' : VertexId) : bool :=
  match edge_between P v v', edge_between T w w' with
  | Some pl, Some tl => edge_ok pl tl
  | Some _, None => false
  | None, Some _ => negb exact
  | None, None => true
  end.

Definition feasible (m : Mapping) (v w : VertexId) : bool :=
  negb (mem w (map snd m))
  && vertex_feasible v w
  && forallb (fun p => edge_feasible v w (fst p) (snd p)) m.

Definition candidates (m : Mapping) (v : VertexId) : list VertexId :=
  filter (feasible m v) (vertex_ids T).

(** Modelled from the spec: steps 3 and 4 for automorphisms, every
    complete mapping that extends [m] along [order]. *)
Fixpoint extend_all (order : list VertexId) (m : Mapping) : list Mapping :=
  match order with
  | [] => [m]
  | v :: rest =>
      flat_map (fun w => extend_all rest ((v, w) :: m)) (candidates m v)
  end.

(** Modelled from the spec: steps 3 and 4 for exact and subgraph queries,
    with the bounded variant of section 5; the number of backtracking
    steps taken so far is threaded through. *)
Fixpoint search_first (bound : option nat) (order : list VertexId)
    (m : Mapping) (steps : nat) : Outcome * nat :=
  match order with
  | [] => (Match m, steps)
  | v :: rest =>
      try_each bound (fun w s => search_first bound rest ((v, w) :: m) s)
               (candidates m v) steps
  end.

End Search.

Section Queries.

Context {PV PE TV TE : Type}.
Variable vertex_ok : PV -> TV -> bool.
Variable edge_ok : PE -> TE -> bool.
Variable selectivity : Invariant PV -> nat.

(** The vertex counts rule out a bijection. *)
Definition size_mismatch (exact : bool) (P : Graph PV PE) (T : Graph TV TE)
  : bool :=
  exact && negb (Nat.eqb (List.length (vertices P)) (List.length (vertices T))).

(** Modelled from the spec: a match query of section 4.5, exact or
    subgraph, unbounded ([None]) or with a step budget. *)
Definition run_query (exact : bool) (bound : option nat)
    (P : Graph PV PE) (T : Graph TV TE) : Outcome * nat :=
  if simple_graph P && simple_graph T then
    if size_mismatch exact P T then (NoMatch, 0)
    else search_first vertex_ok edge_ok exact P T bound
                      (search_order selectivity P) [] 0
  else (InvalidInput, 0).

Definition find_mapping (exact : bool) (bound : option nat)
    (P : Graph PV PE) (T : Graph TV TE) : Outcome :=
  fst (run_query exact bound P T).

(** The number of backtracking steps the unbounded query takes. *)
Definition steps_needed (exact : bool) (P : Graph PV PE) (T : Graph TV TE)
  : nat :=
  snd (run_query exact None P T).

(** Modelled from the spec: the enumeration mode of section 4.5; [None]
    stands for [InvalidInput]. *)
Definition all_mappings (exact : bool) (P : Graph PV PE) (T : Graph TV TE)
  : option (list Mapping) :=
  if simple_graph P && simple_graph T then
    if size_mismatch exact P T then Some []
    else Some (extend_all vertex_ok edge_ok exact P T
                          (search_order selectivity P) [])
  else None.

End Queries.

Import Chem.

(** Modelled from the spec: the three query modes on Molecules and
    Groups, and the bounded variants. *)
Definition isomorphism (selectivity : Invariant Atom -> nat)
    (A B : Molecule) : Outcome :=
  find_mapping atom_eqb bond_eqb selectivity true None A B.

Definition isomorphism_bounded (selectivity : Invariant Atom -> nat)
    (budget : nat) (A B : Molecule) : Outcome :=
  find_mapping atom_eqb bond_eqb selectivity true (Some budget) A B.

Definition subgraph_isomorphism (selectivity : Invariant (list Atom) -> nat)
    (pattern : Group) (target : Molecule) : Outcome :=
  find_mapping matchesLabel matchesBond selectivity false None pattern target.

Definition subgraph_isomorphism_bounded
    (selectivity : Invariant (list Atom) -> nat) (budget : nat)
    (pattern : Group) (target : Molecule) : Outcome :=
  find_mapping matchesLabel matchesBond selectivity false (Some budget)
               pattern target.

Definition automorphisms (selectivity : Invariant Atom -> nat) (M : Molecule)
  : option (list Mapping) :=
  all_mappings atom_eqb bond_eqb selectivity true M M.

(** Modelled from the spec: [symmetryNumber(molecule)] of section 4.6,
    the size of the automorphism set. *)
Definition symmetryNumber (selectivity : Invariant Atom -> nat) (M : Molecule)
  : option nat :=
  option_map (@List.length Mapping) (automorphisms selectivity M).

(** Modelled from the spec: the local symmetry number of section 4.6,
    which counts the automorphisms that keep every anchor in its place. *)
Definition fixes (anchors : list VertexId) (f : Mapping) : bool :=
  forallb (fun a => Nat.eqb (apply f a) a) anchors.

Definition localSymmetryNumber (selectivity : Invariant Atom -> nat)
    (anchors : list VertexId) (M : Molecule) : option nat :=
  option_map (fun auts => List.length (filter (fixes anchors) auts))
             (automorphisms selectivity M).

End Engine.

(* ---------------------------------------------------------------------- *)
(** ** What the engine is to find *)

Module Semantics.

Import GraphCore Chem Engine.

Section Embeddings.

Context {PV PE TV TE : Type}.
Variable vertex_ok : PV -> TV -> bool.
Variable edge_ok : PE -> TE -> bool.
Variable exact : bool.
Variable P : Graph PV PE.
Variable T : Graph TV TE.

(** Modelled from the spec: the mappings of section 4.5.  [sigma] sends
    the pattern vertices injectively to target vertices with compatible
    labels and every pattern edge to a target edge with a compatible
    label; in exact mode it also sends non-adjacent vertices to
    non-adjacent vertices and reaches every target vertex. *)
Record embedding (sigma : VertexId -> VertexId) : Prop := mkEmbedding {
  emb_vertex : forall v, In v (vertex_ids P) ->
    exists pl tl, vertex_labels P v = Some pl
                  /\ vertex_labels T (sigma v) = Some tl
                  /\ vertex_ok pl tl = true;
  emb_injective : forall u v, In u (vertex_ids P) -> In v (vertex_ids P) ->
    sigma u = sigma v -> u = v;
  emb_edge : forall u v pl, In u (vertex_ids P) -> In v (vertex_ids P) ->
    edge_between P u v = Some pl ->
    exists tl, edge_between T (sigma u) (sigma v) = Some tl
               /\ edge_ok pl tl = true;
  emb_non_edge : exact = true ->
    forall u v, In u (vertex_ids P) -> In v (vertex_ids P) ->
    edge_between P u v = None ->
    edge_between T (sigma u) (sigma v) = None;
  emb_onto : exact = true ->
    forall w, In w (vertex_ids T) ->
    exists v, In v (vertex_ids P) /\ sigma v = w
}.

(** The invariant of the search: what holds of a partial mapping, pair
    by pair. *)
Record partial_embedding (m : Mapping) : Prop := mkPartial {
  par_keys : NoDup (map fst m);
  par_values : NoDup (map snd m);
  par_vertex : forall v w, In (v, w) m ->
    vertex_feasible vertex_ok P T v w = true;
  par_edge : forall v w v' w', In (v, w) m -> In (v', w') m -> v <> v' ->
    edge_feasible edge_ok exact P T v w v' w' = true
}.

End Embeddings.

(** The engine's list for the function [sigma] on the vertices [order]. *)
Definition graph_of (sigma : VertexId -> VertexId) (order : list VertexId)
  : Mapping :=
  map (fun v => (v, sigma v)) (rev order).

(** Modelled from the spec: the automorphisms of section 3, the
    self-mappings of a graph that preserve all labels and adjacency. *)
Record automorphism {VL EL : Type} (g : Graph VL EL)
    (sigma : VertexId -> VertexId) : Prop := mkAutomorphism {
  aut_closed : forall v, In v (vertex_ids g) -> In (sigma v) (vertex_ids g);
  aut_injective : forall u v, In u (vertex_ids g) -> In v (vertex_ids g) ->
    sigma u = sigma v -> u = v;
  aut_vertex : forall v, In v (vertex_ids g) ->
    vertex_labels g (sigma v) = vertex_labels g v;
  aut_edge : forall u v, In u (vertex_ids g) -> In v (vertex_ids g) ->
    edge_between g (sigma u) (sigma v) = edge_between g u v
}.

(** Every label the first set accepts, the second accepts as well. *)
Definition atoms_within (l1 l2 : list Atom) : Prop :=
  forall a, matchesLabel l1 a = true -> matchesLabel l2 a = true.

Definition bonds_within (b1 b2 : BondPattern) : Prop :=
  forall o, matchesBond b1 o = true -> matchesBond b2 o = true.

(** Modelled from the spec: the wildcard widening of section 8.  [phi]
    is a correspondence between the vertices of [G1] and of [G2] that
    carries edges to edges, and every label set of [G2] is a superset of
    the corresponding label set of [G1]. *)
Record widens (G1 G2 : Group) (phi : VertexId -> VertexId) : Prop := mkWidens {
  wid_into : forall v, In v (vertex_ids G1) -> In (phi v) (vertex_ids G2);
  wid_onto : forall w, In w (vertex_ids G2) ->
    exists v, In v (vertex_ids G1) /\ phi v = w;
  wid_injective : forall u v, In u (vertex_ids G1) -> In v (vertex_ids G1) ->
    phi u = phi v -> u = v;
  wid_vertex : forall v l1 l2, In v (vertex_ids G1) ->
    vertex_labels G1 v = Some l1 -> vertex_labels G2 (phi v) = Some l2 ->
    atoms_within l1 l2;
  wid_edges : forall u v, In u (vertex_ids G1) -> In v (vertex_ids G1) ->
    (edge_between G1 u v = None <-> edge_between G2 (phi u) (phi v) = None);
  wid_edge : forall u v b1 b2, In u (vertex_ids G1) -> In v (vertex_ids G1) ->
    edge_between G1 u v = Some b1 -> edge_between G2 (phi u) (phi v) = Some b2 ->
    bonds_within b1 b2
}.

End Semantics.

(* ---------------------------------------------------------------------- *)
(** ** Graphs used in the scenarios *)

Module Examples.

Import GraphCore Chem.

Local Open Scope string_scope.

Definition carbon : Atom := mkAtom "C" 12 0 0 0.
Definition oxygen : Atom := mkAtom "O" 16 0 2 0.

(** Scenario 1: two carbon-like vertices joined by a double bond. *)
Definition ethene : Molecule :=
  mkGraph [(0, carbon); (1, carbon)] [mkEdge 0 0 1 Double] 2 1.

(** The same two vertices before the bond is added. *)
Definition two_carbons : Molecule :=
  mkGraph [(0, carbon); (1, carbon)] [] 2 0.

(** Scenario 2: a six-vertex ring, all vertices with one label, the
    bonds alternating between single and aromatic. *)
Definition alternating_ring : Molecule :=
  mkGraph
    [(0, carbon); (1, carbon); (2, carbon); (3, carbon); (4, carbon); (5, carbon)]
    [mkEdge 0 0 1 Single; mkEdge 1 1 2 Aromatic; mkEdge 2 2 3 Single;
     mkEdge 3 3 4 Aromatic; mkEdge 4 4 5 Single; mkEdge 5 5 0 Aromatic]
    6 6.

(** The six-vertex ring with one bond label throughout. *)
Definition aromatic_ring : Molecule :=
  mkGraph
    [(0, carbon); (1, carbon); (2, carbon); (3, carbon); (4, carbon); (5, carbon)]
    [mkEdge 0 0 1 Aromatic; mkEdge 1 1 2 Aromatic; mkEdge 2 2 3 Aromatic;
     mkEdge 3 3 4 Aromatic; mkEdge 4 4 5 Aromatic; mkEdge 5 5 0 Aromatic]
    6 6.

(** A four-membered ring 0-1-2-3 with a three-membered ring fused onto
    each of its bonds (vertices 4 to 7): 8 vertices, 12 edges, one
    component. *)
Definition fused_rings : Molecule :=
  mkGraph
    [(0, carbon); (1, carbon); (2, carbon); (3, carbon);
     (4, carbon); (5, carbon); (6, carbon); (7, carbon)]
    [mkEdge 0 0 1 Single; mkEdge 1 1 2 Single; mkEdge 2 2 3 Single;
     mkEdge 3 3 0 Single;
     mkEdge 4 0 4 Single; mkEdge 5 4 1 Single;
     mkEdge 6 1 5 Single; mkEdge 7 5 2 Single;
     mkEdge 8 2 6 Single; mkEdge 9 6 3 Single;
     mkEdge 10 3 7 Single; mkEdge 11 7 0 Single]
    8 12.

(** Scenario 3: a carbon with a double bond to a carbon or an oxygen,
    formaldehyde's heavy atoms, and the two carbons of ethane. *)
Definition carbonyl_like : Group :=
  mkGraph [(0, [carbon]); (1, [carbon; oxygen])] [mkEdge 0 0 1 (OneOf [Double])] 2 1.

(** The two vertices of that pattern before the edge is added. *)
Definition carbonyl_vertices : Group :=
  mkGraph [(0, [carbon]); (1, [carbon; oxygen])] [] 2 0.

Definition carbon_any_bond : Group :=
  mkGraph [(0, [carbon; oxygen]); (1, [oxygen; carbon])] [mkEdge 0 0 1 AnyBond] 2 1.

Definition formaldehyde : Molecule :=
  mkGraph [(0, carbon); (1, oxygen)] [mkEdge 0 0 1 Double] 2 1.

Definition ethane : Molecule :=
  mkGraph [(0, carbon); (1, carbon)] [mkEdge 0 0 1 Single] 2 1.

End Examples.

(* ---------------------------------------------------------------------- *)
(** ** The whole of [setup.py]: imports, selection and the call of [setup] *)

Module Script.

Local Open Scope string_scope.

(** The exceptions the top-level statements can meet. *)
Inductive exception : Type :=
| ImportError
| NameError (name : string)
| ValueError.

(** What the interpreter finds: for each [import] statement of lines
    33-48 whether it succeeds or raises [ImportError], and the directory
    that [numpy.get_include()] returns. *)
Record Env : Type := mkEnv {
  distutils_core : bool;
  distutils_extension : bool;
  cython_distutils : bool;
  cython_options : bool;
  numpy_module : bool;
  numpy_include : string
}.

(** The state the statements work on: the module-level names bound by
    the imports, the lines printed, [Cython.Compiler.Options.annotate],
    [sys.argv] and [ext_modules]. *)
Record World : Type := mkWorld {
  globals : list string;
  stdout : list string;
  annotate : bool;
  argv : list string;
  ext_modules : list Setup.Extension
}.

(** A statement runs on the state and ends normally or in an exception;
    the state it leaves is kept in both cases. *)
Definition M (A : Type) : Type := World -> World * (exception + A).

Definition ret {A : Type} (a : A) : M A := fun w => (w, inr a).

Definition bind {A B : Type} (c : M A) (k : A -> M B) : M B :=
  fun w =>
    match c w with
    | (w', inr a) => k a w'
    | (w', inl e) => (w', inl e)
    end.

Notation "x <-- c ;; k" := (bind c (fun x => k))
  (at level 61, c at next level, right associativity).
Notation "c ;;; k" := (bind c (fun _ => k))
  (at level 61, right associativity).

(** [import ...] or [from ... import name]: the name is bound when the
    import succeeds. *)
Definition import_as (ok : bool) (name : string) : M unit :=
  fun w =>
    if ok then
      (mkWorld (name :: globals w) (stdout w) (annotate w) (argv w)
               (ext_modules w), inr tt)
    else (w, inl ImportError).

(** [print line] *)
Definition print (line : string) : M unit :=
  fun w =>
    (mkWorld (globals w) (stdout w ++ [line]) (annotate w) (argv w)
             (ext_modules w), inr tt).

(** [try: body except ImportError: handler] *)
Definition try_except_ImportError (body handler : M unit) : M unit :=
  fun w =>
    match body w with
    | (w', inl ImportError) => handler w'
    | r => r
    end.

(** The evaluation of a module-level name. *)
Definition lookup (name : string) : M unit :=
  fun w =>
    if existsb (String.eqb name) (globals w) then (w, inr tt)
    else (w, inl (NameError name)).

Definition distutils_notice : string :=
  "The distutils package is required to build or install RMG Py.".
Definition cython_notice : string :=
  "Cython (http://www.cython.org/) is required to build or install RMG Py.".
Definition numpy_notice : string :=
  "NumPy (http://numpy.scipy.org/) is required to build or install RMG Py.".

(** Lines 33-48. *)
Definition imports (env : Env) : M unit :=
  try_except_ImportError
    (import_as (distutils_core env) "setup" ;;;
     import_as (distutils_extension env) "Extension")
    (print distutils_notice) ;;;
  try_except_ImportError
    (import_as (cython_distutils env) "build_ext" ;;;
     import_as (cython_options env) "Cython")
    (print cython_notice) ;;;
  try_except_ImportError
    (import_as (numpy_module env) "numpy")
    (print numpy_notice).

(** Line 51: [Cython.Compiler.Options.annotate = True]. *)
Definition set_annotate : M unit :=
  lookup "Cython" ;;;
  (fun w => (mkWorld (globals w) (stdout w) true (argv w) (ext_modules w),
             inr tt)).

(** A call of one of the three functions of lines 58-99: the body
    evaluates [Extension] for its first entry. *)
Definition call_modules (mods : list Setup.Extension)
  : M (list Setup.Extension) :=
  lookup "Extension" ;;; ret mods.

(** [ext_modules.extend(f())] *)
Definition extend_with (mods : list Setup.Extension) : M unit :=
  ms <-- call_modules mods ;;
  (fun w => (mkWorld (globals w) (stdout w) (annotate w) (argv w)
                     (ext_modules w ++ ms), inr tt)).

(** [kw in sys.argv] and [sys.argv.remove(kw)] *)
Definition argv_contains (kw : string) : M bool :=
  fun w => (w, inr (Setup.contains kw (argv w))).

Definition argv_remove (kw : string) : M unit :=
  fun w =>
    match Setup.list_remove kw (argv w) with
    | Setup.Ok a =>
        (mkWorld (globals w) (stdout w) (annotate w) a (ext_modules w), inr tt)
    | Setup.Raise _ => (w, inl ValueError)
    end.

(** Lines 103-120. *)
Definition selection : M unit :=
  (fun w => (mkWorld (globals w) (stdout w) (annotate w) (argv w) [], inr tt)) ;;;
  install <-- argv_contains "install" ;;
  if install then
    extend_with Setup.getMainExtensionModules ;;;
    extend_with Setup.getMeasureExtensionModules ;;;
    extend_with Setup.getSolverExtensionModules
  else
    main <-- argv_contains "main" ;;
    if main then
      argv_remove "main" ;;; extend_with Setup.getMainExtensionModules
    else
      measure <-- argv_contains "measure" ;;
      if measure then
        argv_remove "measure" ;;; extend_with Setup.getMeasureExtensionModules
      else
        solver <-- argv_contains "solver" ;;
        if solver then
          argv_remove "solver" ;;; extend_with Setup.getSolverExtensionModules
        else ret tt.

(** The keyword arguments that [setup] is called with. *)
Record SetupCall : Type := mkSetupCall {
  call_name : string;
  call_version : string;
  call_description : string;
  call_author : string;
  call_author_email : string;
  call_url : string;
  call_packages : list string;
  call_scripts : list string;
  call_cmdclass : list string;
  call_ext_modules : list Setup.Extension;
  call_include_dirs : list string
}.

(** Line 122. *)
Definition scripts : list string := ["cantherm.py"; "measure.py"; "rmg.py"].

(** Lines 125-136: the callee [setup] is evaluated first, then the
    arguments in the order they are written. *)
Definition call_setup (env : Env) : M SetupCall :=
  lookup "setup" ;;;
  lookup "build_ext" ;;;
  lookup "numpy" ;;;
  (fun w =>
     (w, inr (mkSetupCall "RMG Py" "0.1.0" "Reaction Mechanism Generator"
                "William H. Green and the RMG Team" "rmg_dev@mit.edu"
                "http://rmg.mit.edu/" ["rmgpy"] scripts ["build_ext"]
                (ext_modules w) [numpy_include env]))).

Definition script (env : Env) : M SetupCall :=
  imports env ;;; set_annotate ;;; selection ;;; call_setup env.

(** The path of the file of a dotted module name, without its suffix. *)
Fixpoint module_path (name : string) : string :=
  match name with
  | EmptyString => EmptyString
  | String c rest =>
      String (if Ascii.eqb c "."%char then "/"%char else c) (module_path rest)
  end.

(** The run of [python setup.py ...] with the given command line, up to
    the point where [setup] is entered: the result is the exception that
    stops the script before that, or the call that is made. *)
Definition run (env : Env) (args : list string)
  : World * (exception + SetupCall) :=
  script env (mkWorld [] [] false args []).

End Script.

(* ====================================================================== *)
(** * Properties of the build manifest *)

Module SetupProps.

Import Setup.
Local Open Scope string_scope.
Local Open Scope list_scope.

Lemma contains_In (x : string) (l : list string) :
  contains x l = true <-> In x l.
Proof.
  unfold contains. rewrite existsb_exists. split.
  - intros [y [Hy E]]. apply String.eqb_eq in E. now subst.
  - intros H. exists x. split; [assumption | apply String.eqb_refl].
Qed.

Lemma contains_not_In (x : string) (l : list string) :
  contains x l = false <-> ~ In x l.
Proof.
  rewrite <- contains_In. destruct (contains x l); split; congruence.
Qed.

(** The tests of the [if]/[elif] chain, settled from what is known of
    [sys.argv]. *)
Ltac keywords :=
  repeat match goal with
         | H : In ?k ?l |- context [contains ?k ?l] =>
             rewrite (proj2 (contains_In k l) H)
         | H : ~ In ?k ?l |- context [contains ?k ?l] =>
             rewrite (proj2 (contains_not_In k l) H)
         end.

(** [l.remove(x)] on a list that holds [x] takes out the first [x] and
    nothing else. *)
Lemma list_remove_first (x : string) (l : list string) :
  In x l ->
  exists l1 l2, l = l1 ++ x :: l2 /\ ~ In x l1 /\ list_remove x l = Ok (l1 ++ l2).
Proof.
  induction l as [|y l IH]; intros H; [destruct H|].
  simpl. destruct (String.eqb y x) eqn:E.
  - apply String.eqb_eq in E. subst y.
    exists [], l. repeat split; auto.
  - apply String.eqb_neq in E.
    destruct H as [H|H]; [congruence|].
    destruct (IH H) as [l1 [l2 [E1 [N R]]]].
    exists (y :: l1), l2. subst l. rewrite R. simpl. repeat split; auto.
    intros [F|F]; [congruence | auto].
Qed.

Lemma list_remove_absent (x : string) (l : list string) :
  ~ In x l -> list_remove x l = Raise ValueError.
Proof.
  induction l as [|y l IH]; intros H; simpl; [reflexivity|].
  destruct (String.eqb y x) eqn:E.
  - apply String.eqb_eq in E. subst. exfalso. apply H. now left.
  - rewrite IH; [reflexivity|]. intros F. apply H. now right.
Qed.

(** What a branch that removes its keyword [kw] and extends by [mods]
    does to the initial state. *)
Lemma keyword_branch (kw : string) (mods : list Extension) (argv : list string) :
  In kw argv ->
  exists l1 l2,
    argv = l1 ++ kw :: l2 /\ ~ In kw l1 /\
    (st1 <- argv_remove kw (mkState argv []) ;; Ok (extend mods st1))
    = Ok (mkState (l1 ++ l2) mods).
Proof.
  intros H. destruct (list_remove_first kw argv H) as [l1 [l2 [E [N R]]]].
  exists l1, l2. repeat split; auto.
  unfold argv_remove. simpl. rewrite R. reflexivity.
Qed.

(** C1: the manifest declares exactly six extension modules under
    [rmgpy.molecule], namely atomtype, element, graph, group, molecule and
    symmetry, all of them in the main list; that is as many as the
    logical units the specification counts for the chemical-graph core. *)
Theorem molecule_inventory :
  map name (under "rmgpy.molecule."
              (getMainExtensionModules ++ getMeasureExtensionModules
               ++ getSolverExtensionModules))
  = ["rmgpy.molecule.atomtype"; "rmgpy.molecule.element";
     "rmgpy.molecule.graph"; "rmgpy.molecule.group";
     "rmgpy.molecule.molecule"; "rmgpy.molecule.symmetry"]
  /\ List.length (under "rmgpy.molecule." getMainExtensionModules) = 6
  /\ under "rmgpy.molecule." getMeasureExtensionModules = []
  /\ under "rmgpy.molecule." getSolverExtensionModules = []
  /\ (forall u : LogicalUnit, In u logical_units)
  /\ NoDup logical_units
  /\ List.length (under "rmgpy.molecule." getMainExtensionModules)
     = List.length logical_units.
Proof.
  split; [reflexivity|]. split; [reflexivity|]. split; [reflexivity|].
  split; [reflexivity|]. split; [|split; [|reflexivity]].
  - intros u. destruct u; simpl; auto 7.
  - repeat constructor; simpl; intuition discriminate.
Qed.

(** C8: the selection goes by the first keyword in the order install,
    main, measure, solver.  With [install] in [sys.argv] the three lists
    are taken, whatever other keywords are there; otherwise the branch of
    the first keyword present runs, and that branch alone; with none of
    the four keywords [ext_modules] stays empty. *)
Theorem selection_by_first_keyword (argv : list string) :
  (In "install" argv ->
     select_ext_modules argv
     = Ok (mkState argv (getMainExtensionModules
                         ++ getMeasureExtensionModules
                         ++ getSolverExtensionModules)))
  /\ (~ In "install" argv -> In "main" argv ->
        select_ext_modules argv = main_branch (mkState argv [])
        /\ exists st, select_ext_modules argv = Ok st
                      /\ ext_modules st = getMainExtensionModules)
  /\ (~ In "install" argv -> ~ In "main" argv -> In "measure" argv ->
        select_ext_modules argv = measure_branch (mkState argv [])
        /\ exists st, select_ext_modules argv = Ok st
                      /\ ext_modules st = getMeasureExtensionModules)
  /\ (~ In "install" argv -> ~ In "main" argv -> ~ In "measure" argv ->
      In "solver" argv ->
        select_ext_modules argv = solver_branch (mkState argv [])
        /\ exists st, select_ext_modules argv = Ok st
                      /\ ext_modules st = getSolverExtensionModules)
  /\ (~ In "install" argv -> ~ In "main" argv -> ~ In "measure" argv ->
      ~ In "solver" argv ->
        select_ext_modules argv = Ok (mkState argv [])).
Proof.
  unfold select_ext_modules. cbn [sys_argv].
  split; [|split; [|split; [|split]]]; intros; keywords.
  - reflexivity.
  - destruct (keyword_branch "main" getMainExtensionModules argv)
      as [l1 [l2 [_ [_ R]]]]; [assumption|].
    unfold main_branch. rewrite R. split; [reflexivity|].
    eexists. split; reflexivity.
  - destruct (keyword_branch "measure" getMeasureExtensionModules argv)
      as [l1 [l2 [_ [_ R]]]]; [assumption|].
    unfold measure_branch. rewrite R. split; [reflexivity|].
    eexists. split; reflexivity.
  - destruct (keyword_branch "solver" getSolverExtensionModules argv)
      as [l1 [l2 [_ [_ R]]]]; [assumption|].
    unfold solver_branch. rewrite R. split; [reflexivity|].
    eexists. split; reflexivity.
  - reflexivity.
Qed.

Lemma selection_by_first_keyword_witness :
  select_ext_modules ["setup.py"; "install"; "main"]
  = Ok (mkState ["setup.py"; "install"; "main"]
          (getMainExtensionModules ++ getMeasureExtensionModules
           ++ getSolverExtensionModules))
  /\ (exists st, select_ext_modules ["setup.py"; "build_ext"; "solver"; "main"] = Ok st
                 /\ ext_modules st = getMainExtensionModules)
  /\ (exists st, select_ext_modules ["setup.py"; "build_ext"; "solver"; "measure"] = Ok st
                 /\ ext_modules st = getMeasureExtensionModules)
  /\ (exists st, select_ext_modules ["setup.py"; "build_ext"; "solver"] = Ok st
                 /\ ext_modules st = getSolverExtensionModules)
  /\ select_ext_modules ["setup.py"; "build_ext"]
     = Ok (mkState ["setup.py"; "build_ext"] []).
Proof.
  assert (D : forall x y : string, x <> y -> forall l, ~ In x l -> ~ In x (y :: l)).
  { intros x y N l Hl [F|F]; [congruence | auto]. }
  split; [|split; [|split; [|split]]].
  - apply (proj1 (selection_by_first_keyword ["setup.py"; "install"; "main"])).
    simpl. auto.
  - apply (proj1 (proj2 (selection_by_first_keyword
                           ["setup.py"; "build_ext"; "solver"; "main"]))).
    + repeat (apply D; [discriminate|]). intros [].
    + simpl. auto.
  - apply (proj1 (proj2 (proj2 (selection_by_first_keyword
                           ["setup.py"; "build_ext"; "solver"; "measure"])))).
    + repeat (apply D; [discriminate|]). intros [].
    + repeat (apply D; [discriminate|]). intros [].
    + simpl. auto.
  - apply (proj1 (proj2 (proj2 (proj2 (selection_by_first_keyword
                           ["setup.py"; "build_ext"; "solver"]))))).
    + repeat (apply D; [discriminate|]). intros [].
    + repeat (apply D; [discriminate|]). intros [].
    + repeat (apply D; [discriminate|]). intros [].
    + simpl. auto.
  - apply (proj2 (proj2 (proj2 (proj2 (selection_by_first_keyword
                           ["setup.py"; "build_ext"]))))).
    + repeat (apply D; [discriminate|]). intros [].
    + repeat (apply D; [discriminate|]). intros [].
    + repeat (apply D; [discriminate|]). intros [].
    + repeat (apply D; [discriminate|]). intros [].
Defined.

(** C9: with [install] in [sys.argv] the resulting [ext_modules] holds two
    entries named [rmgpy.constants], two named [rmgpy.quantity] and two
    named [rmgpy._statmech]: the main and the measure lists both declare
    them and the lists are concatenated as they are. *)
Theorem install_duplicates (argv : list string) :
  In "install" argv ->
  exists st,
    select_ext_modules argv = Ok st
    /\ count_name "rmgpy.constants" (ext_modules st) = 2
    /\ count_name "rmgpy.quantity" (ext_modules st) = 2
    /\ count_name "rmgpy._statmech" (ext_modules st) = 2
    /\ count_name "rmgpy.constants" getMainExtensionModules = 1
    /\ count_name "rmgpy.constants" getMeasureExtensionModules = 1
    /\ count_name "rmgpy.quantity" getMainExtensionModules = 1
    /\ count_name "rmgpy.quantity" getMeasureExtensionModules = 1
    /\ count_name "rmgpy._statmech" getMainExtensionModules = 1
    /\ count_name "rmgpy._statmech" getMeasureExtensionModules = 1.
Proof.
  intros H. unfold select_ext_modules. cbn [sys_argv]. keywords.
  eexists. split; [reflexivity|]. repeat split; reflexivity.
Qed.

Lemma install_duplicates_witness :
  exists st,
    select_ext_modules ["setup.py"; "install"] = Ok st
    /\ count_name "rmgpy.constants" (ext_modules st) = 2
    /\ count_name "rmgpy.quantity" (ext_modules st) = 2
    /\ count_name "rmgpy._statmech" (ext_modules st) = 2.
Proof.
  destruct (install_duplicates ["setup.py"; "install"]) as [st [E [A [B [C _]]]]].
  - simpl. auto.
  - exists st. auto.
Defined.

(** C10: the main, measure and solver branches take exactly one occurrence
    of their keyword, the first, out of [sys.argv] and leave every other
    element where it was; the install branch and the run without keyword
    leave [sys.argv] as it is. *)
Theorem argv_frame (argv : list string) :
  (~ In "install" argv -> In "main" argv ->
     exists l1 l2 st,
       argv = l1 ++ "main" :: l2 /\ ~ In "main" l1
       /\ select_ext_modules argv = Ok st /\ sys_argv st = l1 ++ l2)
  /\ (~ In "install" argv -> ~ In "main" argv -> In "measure" argv ->
     exists l1 l2 st,
       argv = l1 ++ "measure" :: l2 /\ ~ In "measure" l1
       /\ select_ext_modules argv = Ok st /\ sys_argv st = l1 ++ l2)
  /\ (~ In "install" argv -> ~ In "main" argv -> ~ In "measure" argv ->
      In "solver" argv ->
     exists l1 l2 st,
       argv = l1 ++ "solver" :: l2 /\ ~ In "solver" l1
       /\ select_ext_modules argv = Ok st /\ sys_argv st = l1 ++ l2)
  /\ (In "install" argv ->
     exists st, select_ext_modules argv = Ok st /\ sys_argv st = argv)
  /\ (~ In "install" argv -> ~ In "main" argv -> ~ In "measure" argv ->
      ~ In "solver" argv ->
     exists st, select_ext_modules argv = Ok st /\ sys_argv st = argv).
Proof.
  unfold select_ext_modules. cbn [sys_argv].
  split; [|split; [|split; [|split]]]; intros; keywords.
  - destruct (keyword_branch "main" getMainExtensionModules argv)
      as [l1 [l2 [E [N R]]]]; [assumption|].
    exists l1, l2. unfold main_branch. rewrite R.
    eexists. repeat split; eauto.
  - destruct (keyword_branch "measure" getMeasureExtensionModules argv)
      as [l1 [l2 [E [N R]]]]; [assumption|].
    exists l1, l2. unfold measure_branch. rewrite R.
    eexists. repeat split; eauto.
  - destruct (keyword_branch "solver" getSolverExtensionModules argv)
      as [l1 [l2 [E [N R]]]]; [assumption|].
    exists l1, l2. unfold solver_branch. rewrite R.
    eexists. repeat split; eauto.
  - eexists. split; reflexivity.
  - eexists. split; reflexivity.
Qed.

Lemma argv_frame_witness :
  (exists st,
     select_ext_modules ["setup.py"; "main"; "build_ext"; "main"] = Ok st
     /\ sys_argv st = ["setup.py"] ++ ["build_ext"; "main"])
  /\ (exists st,
     select_ext_modules ["setup.py"; "install"; "main"] = Ok st
     /\ sys_argv st = ["setup.py"; "install"; "main"]).
Proof.
  split.
  - destruct (proj1 (argv_frame ["setup.py"; "main"; "build_ext"; "main"]))
      as [l1 [l2 [st [E [N [R S]]]]]].
    + intros [F|[F|[F|[F|[]]]]]; discriminate.
    + simpl. auto.
    + exists st. split; [exact R|]. rewrite S.
      destruct l1 as [|a [|b l1]]; simpl in E.
      * discriminate.
      * injection E as Ea El. subst. reflexivity.
      * injection E as Ea Eb El. subst b. exfalso. apply N. simpl. auto.
  - apply (proj1 (proj2 (proj2 (proj2 (argv_frame ["setup.py"; "install"; "main"]))))).
    simpl. auto.
Defined.

End SetupProps.

(* ====================================================================== *)
(** * Properties of the Graph Core *)

Module GraphProps.

Import GraphCore.

Section Facts.

Context {VL EL : Type} {VLS : LabelSet VL} {ELS : LabelSet EL}.
Implicit Types g : Graph VL EL.
Implicit Types e : Edge EL.

Lemma mem_In (v : VertexId) (l : list VertexId) : mem v l = true <-> In v l.
Proof.
  unfold mem. rewrite existsb_exists. split.
  - intros [x [Hx E]]. apply Nat.eqb_eq in E. now subst.
  - intros H. exists v. split; [assumption | apply Nat.eqb_refl].
Qed.

Lemma mem_not_In (v : VertexId) (l : list VertexId) : mem v l = false <-> ~ In v l.
Proof.
  rewrite <- mem_In. destruct (mem v l); split; congruence.
Qed.

Lemma distinct_NoDup (l : list VertexId) : distinct l = true <-> NoDup l.
Proof.
  induction l as [|x l IH]; simpl.
  - split; [constructor | reflexivity].
  - rewrite andb_true_iff, negb_true_iff, mem_not_In, IH. split.
    + intros [A B]. now constructor.
    + intros H. inversion H. auto.
Qed.

Lemma joins_sym (u v : VertexId) e : joins u v e = joins v u e.
Proof.
  unfold joins. apply orb_comm.
Qed.

Lemma joins_endpoints (u v : VertexId) e :
  joins u v e = true ->
  (endpoint1 e = u /\ endpoint2 e = v) \/ (endpoint1 e = v /\ endpoint2 e = u).
Proof.
  unfold joins. rewrite orb_true_iff, !andb_true_iff, !Nat.eqb_eq. tauto.
Qed.

Lemma joins_new_edge (i u v : VertexId) (l : EL) e :
  joins (endpoint1 e) (endpoint2 e) (mkEdge i u v l) = joins u v e.
Proof.
  unfold joins. simpl.
  rewrite (Nat.eqb_sym u), (Nat.eqb_sym v), (Nat.eqb_sym u (endpoint2 e)),
    (Nat.eqb_sym v (endpoint1 e)).
  now rewrite (andb_comm (endpoint2 e =? u)).
Qed.

Lemma has_edge_sym g (u v : VertexId) : has_edge g u v = has_edge g v u.
Proof.
  unfold has_edge. induction (edges g) as [|e es IH]; simpl; [reflexivity|].
  now rewrite IH, joins_sym.
Qed.

Lemma edge_between_sym g (u v : VertexId) : edge_between g u v = edge_between g v u.
Proof.
  unfold edge_between. f_equal.
  induction (edges g) as [|e es IH]; simpl; [reflexivity|].
  now rewrite IH, joins_sym.
Qed.

(** No edge dangles: the endpoints of an edge are vertices. *)
Lemma has_edge_known g (u v : VertexId) :
  endpoints_known g = true -> has_edge g u v = true ->
  has_vertex g u = true /\ has_vertex g v = true.
Proof.
  unfold endpoints_known, has_edge. rewrite forallb_forall, existsb_exists.
  intros K [e [He J]]. specialize (K e He).
  apply andb_true_iff in K. destruct K as [K1 K2].
  destruct (joins_endpoints _ _ _ J) as [[A B]|[A B]]; subst; auto.
Qed.

Lemma no_parallel_snoc (es : list (Edge EL)) e :
  no_parallel es = true ->
  existsb (joins (endpoint1 e) (endpoint2 e)) es = false ->
  no_parallel (es ++ [e]) = true.
Proof.
  induction es as [|x es IH]; simpl; intros H N; [reflexivity|].
  apply andb_true_iff in H. destruct H as [H1 H2].
  apply orb_false_iff in N. destruct N as [N1 N2].
  rewrite existsb_app, IH by assumption. simpl.
  apply negb_true_iff in H1. rewrite H1. simpl.
  destruct e as [i a b l]. rewrite joins_new_edge. simpl in N1.
  now rewrite N1.
Qed.

Lemma wf_empty : wf (@empty_graph VL EL).
Proof.
  constructor; simpl; auto.
Qed.

Lemma addVertex_wf g (labels : VL) (v : VertexId) (g' : Graph VL EL) :
  wf g -> addVertex labels g = inr (v, g') -> wf g'.
Proof.
  intros [D K L P V E LV LE] H. unfold addVertex in H.
  destruct (is_empty labels) eqn:N; [discriminate|].
  injection H as <- <-. constructor; simpl.
  - unfold vertex_ids in *. simpl. rewrite map_app. simpl.
    apply distinct_NoDup. apply distinct_NoDup in D.
    apply NoDup_app; [assumption | repeat constructor; auto |].
    intros x Hx [F|[]]. subst x.
    rewrite Forall_forall in V. specialize (V _ Hx). lia.
  - unfold endpoints_known in *. simpl.
    rewrite forallb_forall in *. intros e He. specialize (K e He).
    apply andb_true_iff in K. destruct K as [K1 K2].
    unfold has_vertex, vertex_ids in *. simpl. rewrite map_app.
    apply mem_In in K1, K2.
    apply andb_true_iff. split; apply mem_In; apply in_or_app; auto.
  - exact L.
  - assumption.
  - unfold vertex_ids in *. simpl. rewrite map_app. apply Forall_app. split.
    + eapply Forall_impl; [|exact V]. simpl. intros; lia.
    + repeat constructor.
  - assumption.
  - apply Forall_app. split; [assumption|]. repeat constructor. exact N.
  - assumption.
Qed.

Lemma no_parallel_filter (keep : Edge EL -> bool) (es : list (Edge EL)) :
  no_parallel es = true -> no_parallel (filter keep es) = true.
Proof.
  induction es as [|x es IH]; simpl; intros P; [reflexivity|].
  apply andb_true_iff in P. destruct P as [P1 P2].
  destruct (keep x); simpl; auto.
  rewrite IH by assumption. rewrite andb_true_r.
  apply negb_true_iff. apply negb_true_iff in P1.
  apply not_true_iff_false. intros F. apply existsb_exists in F.
  destruct F as [y [Hy J]]. apply filter_In in Hy.
  assert (existsb (joins (endpoint1 x) (endpoint2 x)) es = true).
  { apply existsb_exists. exists y. tauto. }
  congruence.
Qed.

Lemma removeEdge_wf g (i : EdgeId) : wf g -> wf (removeEdge i g).
Proof.
  intros [D K L P V E LV LE]. constructor; simpl; auto.
  - unfold endpoints_known in *. simpl. rewrite forallb_forall in *.
    intros e He. apply filter_In in He. apply K. tauto.
  - unfold no_self_loops in *. simpl. rewrite forallb_forall in *.
    intros e He. apply filter_In in He. apply L. tauto.
  - now apply no_parallel_filter.
  - rewrite Forall_forall in *. intros e He. apply filter_In in He.
    apply E. tauto.
  - rewrite Forall_forall in *. intros e He. apply filter_In in He.
    apply LE. tauto.
Qed.

Lemma removeVertex_wf g (v : VertexId) : wf g -> wf (removeVertex v g).
Proof.
  intros [D K L P V E LV LE]. constructor; simpl.
  - apply distinct_NoDup. apply distinct_NoDup in D.
    unfold vertex_ids in *. simpl. clear -D.
    induction (vertices g) as [|p l IH]; simpl in *; [constructor|].
    inversion D as [|? ? N D']; subst.
    destruct (negb (fst p =? v)); simpl; auto.
    constructor; auto. intros F. apply N.
    apply in_map_iff in F. destruct F as [q [Eq Hq]].
    apply filter_In in Hq. apply in_map_iff. exists q. tauto.
  - unfold endpoints_known in *. simpl. rewrite forallb_forall in *.
    intros e He. apply filter_In in He. destruct He as [He Ne].
    specialize (K e He). apply andb_true_iff in K. destruct K as [K1 K2].
    apply negb_true_iff, orb_false_iff in Ne. destruct Ne as [N1 N2].
    unfold has_vertex, vertex_ids in *. simpl.
    apply mem_In in K1, K2. apply in_map_iff in K1, K2.
    destruct K1 as [p1 [E1 H1]]. destruct K2 as [p2 [E2 H2]].
    apply andb_true_iff. split; apply mem_In; apply in_map_iff.
    + exists p1. split; [assumption|]. apply filter_In.
      split; [assumption|]. now rewrite E1, N1.
    + exists p2. split; [assumption|]. apply filter_In.
      split; [assumption|]. now rewrite E2, N2.
  - unfold no_self_loops in *. simpl. rewrite forallb_forall in *.
    intros e He. apply filter_In in He. apply L. tauto.
  - now apply no_parallel_filter.
  - unfold vertex_ids in *. simpl. rewrite Forall_forall in *.
    intros x Hx. apply V. apply in_map_iff in Hx.
    destruct Hx as [q [Eq Hq]]. apply filter_In in Hq.
    apply in_map_iff. exists q. tauto.
  - rewrite Forall_forall in *. intros e He. apply filter_In in He.
    apply E. tauto.
  - rewrite Forall_forall in *. intros p Hp. apply filter_In in Hp.
    apply LV. tauto.
  - rewrite Forall_forall in *. intros e He. apply filter_In in He.
    apply LE. tauto.
Qed.

(** A graph that satisfies the invariants passes the check of the
    engine. *)
Lemma wf_simple g : wf g -> simple_graph g = true.
Proof.
  intros [D K L P _ _ _ _]. unfold simple_graph. now rewrite D, K, L, P.
Qed.

Lemma vertex_labels_In g (v : VertexId) (l : VL) :
  vertex_labels g v = Some l -> In v (vertex_ids g).
Proof.
  unfold vertex_labels, vertex_ids.
  destruct (find (fun q => fst q =? v) (vertices g)) as [p|] eqn:F;
    [|discriminate].
  intros _. apply find_some in F. destruct F as [Hp E].
  apply Nat.eqb_eq in E. subst v. now apply in_map.
Qed.

Lemma In_vertex_labels g (v : VertexId) :
  In v (vertex_ids g) -> exists l, vertex_labels g v = Some l.
Proof.
  unfold vertex_labels, vertex_ids. intros H.
  apply in_map_iff in H. destruct H as [p [E Hp]].
  destruct (find (fun q => fst q =? v) (vertices g)) as [q|] eqn:F.
  - exists (snd q). reflexivity.
  - exfalso. apply (find_none _ _ F) in Hp. simpl in Hp.
    apply Nat.eqb_neq in Hp. congruence.
Qed.

Lemma edge_between_self g (v : VertexId) :
  no_self_loops g = true -> edge_between g v v = None.
Proof.
  unfold no_self_loops, edge_between. intros H.
  destruct (find (joins v v) (edges g)) as [e|] eqn:F; [|reflexivity].
  exfalso. apply find_some in F. destruct F as [He J].
  rewrite forallb_forall in H. specialize (H e He).
  apply negb_true_iff, Nat.eqb_neq in H.
  destruct (joins_endpoints _ _ _ J) as [[A B]|[A B]]; congruence.
Qed.

Lemma simple_graph_parts g :
  simple_graph g = true ->
  NoDup (vertex_ids g) /\ endpoints_known g = true
  /\ no_self_loops g = true /\ no_parallel (edges g) = true.
Proof.
  unfold simple_graph. rewrite !andb_true_iff, distinct_NoDup. tauto.
Qed.

End Facts.

Section AddEdge.

Context {VL EL : Type} {VLS : LabelSet VL} {ELS : LabelSet EL}.

(** C5, as the Graph Core has it: on a graph that satisfies the
    invariants of the data model, [addEdge(v1, v2, labels)] fails with
    [DuplicateEdge] when the unordered pair already has an edge and with
    [UnknownVertex] when an endpoint is not a vertex of the graph; it
    fails with a construction error as well when [v1 = v2] or the label
    set is empty; in every other case it returns an edge identifier that
    no edge of the graph carries, with the new edge appended and the
    invariants kept. *)
Theorem addEdge_contract (g : Graph VL EL) (v1 v2 : VertexId) (labels : EL) :
  wf g ->
  (has_edge g v1 v2 = true \/ has_edge g v2 v1 = true ->
     addEdge v1 v2 labels g = inl DuplicateEdge)
  /\ (has_vertex g v1 = false \/ has_vertex g v2 = false ->
     addEdge v1 v2 labels g = inl UnknownVertex)
  /\ (v1 = v2 ->
     (exists err, addEdge v1 v2 labels g = inl err)
     /\ (has_vertex g v1 = true -> addEdge v1 v2 labels g = inl SelfLoop))
  /\ (is_empty labels = true ->
     (exists err, addEdge v1 v2 labels g = inl err)
     /\ (has_edge g v1 v2 = false ->
         has_vertex g v1 = true -> has_vertex g v2 = true -> v1 <> v2 ->
         addEdge v1 v2 labels g = inl EmptyLabelSet))
  /\ (has_edge g v1 v2 = false ->
      has_vertex g v1 = true -> has_vertex g v2 = true ->
      v1 <> v2 -> is_empty labels = false ->
      exists (e : EdgeId) (g' : Graph VL EL),
        addEdge v1 v2 labels g = inr (e, g')
        /\ ~ In e (map edge_id (edges g))
        /\ edges g' = edges g ++ [mkEdge e v1 v2 labels]
        /\ vertices g' = vertices g
        /\ wf g').
Proof.
  intros W. destruct W as [D K L P V E LV LE].
  assert (Loop : forall v, has_edge g v v = false).
  { intros v. apply not_true_is_false. intros F.
    unfold has_edge in F. apply existsb_exists in F.
    destruct F as [e [He J]].
    unfold no_self_loops in L. rewrite forallb_forall in L.
    specialize (L e He). apply negb_true_iff, Nat.eqb_neq in L.
    destruct (joins_endpoints _ _ _ J) as [[A B]|[A B]]; congruence. }
  split; [|split; [|split; [|split]]].
  - intros H. unfold addEdge.
    rewrite (has_edge_sym g v2 v1) in H.
    destruct H as [H|H]; now rewrite H.
  - intros H. unfold addEdge.
    destruct (has_edge g v1 v2) eqn:He.
    + destruct (has_edge_known g v1 v2 K He) as [A B].
      destruct H; congruence.
    + destruct H as [H|H]; rewrite H; simpl; [reflexivity|].
      now rewrite andb_false_r.
  - intros <-. unfold addEdge. rewrite (Loop v1), Nat.eqb_refl. split.
    + destruct (negb (has_vertex g v1 && has_vertex g v1)); eauto.
    + intros H. now rewrite H.
  - intros N. unfold addEdge. rewrite N. split.
    + destruct (has_edge g v1 v2); [eauto|].
      destruct (negb (has_vertex g v1 && has_vertex g v2)); [eauto|].
      destruct (v1 =? v2); eauto.
    + intros He H1 H2 Ne. apply Nat.eqb_neq in Ne.
      now rewrite He, H1, H2, Ne.
  - intros He H1 H2 Ne N. unfold addEdge.
    pose proof Ne as Ne'. apply Nat.eqb_neq in Ne'.
    rewrite He, H1, H2, Ne', N. simpl.
    eexists. eexists. split; [reflexivity|].
    split; [|split; [reflexivity|split; [reflexivity|]]].
    + intros F. apply in_map_iff in F. destruct F as [x [Ex Hx]].
      rewrite Forall_forall in E. specialize (E x Hx). lia.
    + constructor; simpl.
      * exact D.
      * unfold endpoints_known, has_vertex, vertex_ids in *. simpl.
        rewrite forallb_app, K. simpl.
        now rewrite H1, H2.
      * unfold no_self_loops in *. simpl. rewrite forallb_app, L. simpl.
        now rewrite Ne'.
      * apply no_parallel_snoc; assumption.
      * exact V.
      * apply Forall_app. split.
        -- eapply Forall_impl; [|exact E]. simpl. intros; lia.
        -- repeat constructor.
      * exact LV.
      * apply Forall_app. split; [assumption|]. repeat constructor. exact N.
Qed.

End AddEdge.

(** ** Breadth-first search *)

Lemma next_to_cons (w x y : VertexId) (l : list VertexId) :
  next_to (w :: l) x y ->
  (x = w /\ exists l', l = y :: l') \/ next_to l x y.
Proof.
  intros [l1 [l2 E]]. destruct l1 as [|z l1]; simpl in E.
  - injection E as -> ->. left. eauto.
  - injection E as -> ->. right. exists l1, l2. reflexivity.
Qed.

Lemma next_to_rev (l : list VertexId) (x y : VertexId) :
  next_to (rev l) x y -> next_to l y x.
Proof.
  intros [l1 [l2 E]]. exists (rev l2), (rev l1).
  rewrite <- (rev_involutive l), E, rev_app_distr. simpl.
  now rewrite <- !app_assoc.
Qed.

Section BfsFacts.

Variable adj : VertexId -> list VertexId.
Variables a t : VertexId.

(** A path returned by [bfs] leads from the start to the target along
    [adj] and repeats no vertex. *)
Lemma bfs_sound (fuel : nat) :
  forall (visited : list VertexId) (queue : list (list VertexId))
         (r : list VertexId),
    (forall p, In p queue -> p = [] \/ queued_path adj a visited p) ->
    bfs fuel adj t visited queue = Some r ->
    exists p, r = rev p /\ (exists p', p = t :: p')
              /\ (exists q, p = q ++ [a])
              /\ NoDup p
              /\ forall x y, next_to p x y -> In x (adj y).
Proof.
  induction fuel as [|fuel IH]; intros visited queue r Inv H; simpl in H;
    [discriminate|].
  destruct queue as [|[|u path] queue]; [discriminate| |].
  - apply (IH visited queue r); [|exact H].
    intros p Hp. apply Inv. now right.
  - destruct (Nat.eqb u t) eqn:E.
    + apply Nat.eqb_eq in E. subst u. injection H as <-.
      exists (t :: path). split; [reflexivity|]. split; [eauto|].
      destruct (Inv (t :: path)) as [F|[Q1 [Q2 [Q3 Q4]]]];
        [now left | discriminate | auto].
    + destruct (Inv (u :: path)) as [F|[[q Eq] [D [I W]]]];
        [now left | discriminate |].
      set (fresh := filter (fun w => negb (mem w visited)) (adj u)) in *.
      apply (IH (visited ++ fresh)
                (queue ++ map (fun w => w :: u :: path) fresh) r);
        [|exact H].
      intros p Hp. apply in_app_or in Hp. destruct Hp as [Hp|Hp].
      * destruct (Inv p) as [F|[Q1 [Q2 [Q3 Q4]]]]; [now right | now left |].
        right. repeat split; auto. now apply incl_appl.
      * apply in_map_iff in Hp. destruct Hp as [w [<- Hw]].
        apply filter_In in Hw. destruct Hw as [Hw Nw].
        apply negb_true_iff, mem_not_In in Nw.
        right. split; [|split; [|split]].
        -- exists (w :: q). rewrite Eq. reflexivity.
        -- constructor; [|assumption]. intros F. apply Nw. now apply I.
        -- intros x [<-|Hx].
           ++ apply in_or_app. right. apply filter_In. split; [assumption|].
              now apply negb_true_iff, mem_not_In.
           ++ apply in_or_app. left. now apply I.
        -- intros x y N. apply next_to_cons in N.
           destruct N as [[-> [l' El]]|N]; [|now apply W].
           injection El as -> _. exact Hw.
Qed.

(** The fuel is enough: with every neighbour list duplicate-free and
    within [universe], a vertex enters the queue at most once, so the
    length of the queue plus the number of vertices not yet visited
    bounds the number of rounds. *)
Variable universe : list VertexId.
Hypothesis universe_NoDup : NoDup universe.
Hypothesis adj_NoDup : forall u, NoDup (adj u).
Hypothesis adj_incl : forall u, incl (adj u) universe.

Local Abbreviation unvisited visited :=
  (filter (fun v => negb (mem v visited)) universe).

Lemma fresh_count (visited : list VertexId) (u : VertexId) :
  let fresh := filter (fun w => negb (mem w visited)) (adj u) in
  List.length (unvisited (visited ++ fresh)) + List.length fresh
  <= List.length (unvisited visited).
Proof.
  intros fresh. rewrite Nat.add_comm, <- length_app.
  apply NoDup_incl_length.
  - apply NoDup_app; [now apply NoDup_filter | now apply NoDup_filter |].
    intros x Hx Hy. apply filter_In in Hy. destruct Hy as [_ Hy].
    apply negb_true_iff, mem_not_In in Hy. apply Hy.
    apply in_or_app. now right.
  - intros x Hx. apply in_app_or in Hx. destruct Hx as [Hx|Hx].
    + apply filter_In in Hx. destruct Hx as [Hx Nx].
      apply filter_In. split; [now apply (adj_incl u) | assumption].
    + apply filter_In in Hx. destruct Hx as [Hx Nx].
      apply filter_In. split; [assumption|].
      apply negb_true_iff, mem_not_In.
      apply negb_true_iff, mem_not_In in Nx.
      intros F. apply Nx. apply in_or_app. now left.
Qed.

Lemma bfs_fuel (fuel : nat) :
  forall (visited : list VertexId) (queue : list (list VertexId)),
    List.length queue + List.length (unvisited visited) <= fuel ->
    forall extra,
      bfs (fuel + extra) adj t visited queue = bfs fuel adj t visited queue.
Proof.
  induction fuel as [|fuel IH]; intros visited queue L extra.
  - destruct queue; [|simpl in L; lia].
    destruct extra; reflexivity.
  - simpl. destruct queue as [|[|u path] queue]; [reflexivity| |].
    + apply IH. simpl in L. lia.
    + destruct (Nat.eqb u t); [reflexivity|].
      apply IH. rewrite length_app, length_map.
      pose proof (fresh_count visited u) as F. simpl in F, L. lia.
Qed.

Lemma reach_fuel (fuel : nat) :
  forall (visited queue : list VertexId),
    List.length queue + List.length (unvisited visited) <= fuel ->
    forall extra,
      reach (fuel + extra) adj visited queue = reach fuel adj visited queue.
Proof.
  induction fuel as [|fuel IH]; intros visited queue L extra.
  - destruct queue; [|simpl in L; lia].
    destruct extra; reflexivity.
  - simpl. destruct queue as [|u queue]; [reflexivity|].
    apply IH. rewrite length_app.
    pose proof (fresh_count visited u) as F. simpl in F, L. lia.
Qed.

End BfsFacts.

Section TraversalFacts.

Context {VL EL : Type}.
Variable g : Graph VL EL.
Hypothesis g_distinct : NoDup (vertex_ids g).

Lemma neighbors_NoDup (u : VertexId) : NoDup (neighbors g u).
Proof.
  unfold neighbors. now apply NoDup_filter.
Qed.

Lemma neighbors_incl (u : VertexId) : incl (neighbors g u) (vertex_ids g).
Proof.
  unfold neighbors. intros x Hx. apply filter_In in Hx. tauto.
Qed.

(** More fuel does not change the shortest path that is found, nor the
    component that is collected. *)
Lemma path_avoiding_fuel (a b : VertexId) (extra : nat) :
  bfs (S (List.length (vertices g)) + extra) (neighbors_without g a b) b [a] [[a]]
  = path_avoiding g a b.
Proof.
  unfold path_avoiding.
  apply (bfs_fuel (neighbors_without g a b) b (vertex_ids g)); auto.
  - intros u. unfold neighbors_without. apply NoDup_filter, neighbors_NoDup.
  - intros u x Hx. unfold neighbors_without in Hx. apply filter_In in Hx.
    apply (neighbors_incl u). tauto.
  - cbn [List.length Nat.add]. apply le_n_S.
    rewrite <- (length_map fst (vertices g)). apply filter_length_le.
Qed.

Lemma component_of_fuel (s : VertexId) (extra : nat) :
  reach (S (List.length (vertices g)) + extra) (neighbors g) [s] [s]
  = component_of g s.
Proof.
  unfold component_of.
  apply (reach_fuel (neighbors g) (vertex_ids g)); auto.
  - apply neighbors_NoDup.
  - apply neighbors_incl.
  - cbn [List.length Nat.add]. apply le_n_S.
    rewrite <- (length_map fst (vertices g)). apply filter_length_le.
Qed.

Lemma reach_grows (fuel : nat) (adj : VertexId -> list VertexId) :
  forall visited queue, incl visited (reach fuel adj visited queue).
Proof.
  induction fuel as [|fuel IH]; intros visited queue; simpl.
  - apply incl_refl.
  - destruct queue as [|u queue]; [apply incl_refl|].
    eapply incl_tran; [|apply IH]. now apply incl_appl.
Qed.

Lemma components_fuel (fuel : nat) :
  forall (remaining : list VertexId),
    List.length remaining <= fuel ->
    forall extra,
      components (fuel + extra) g remaining = components fuel g remaining.
Proof.
  induction fuel as [|fuel IH]; intros remaining L extra.
  - destruct remaining; [|simpl in L; lia].
    destruct extra; reflexivity.
  - simpl. destruct remaining as [|s remaining]; [reflexivity|].
    f_equal. apply IH.
    assert (M : mem s (component_of g s) = true).
    { apply mem_In. apply (reach_grows _ _ [s] [s]). now left. }
    simpl. rewrite M. simpl.
    pose proof (filter_length_le
                  (fun v => negb (mem v (component_of g s))) remaining).
    simpl in L. lia.
Qed.

Lemma connectedComponents_fuel (extra : nat) :
  components (List.length (vertices g) + extra) g (vertex_ids g)
  = connectedComponents g.
Proof.
  unfold connectedComponents. apply components_fuel.
  unfold vertex_ids. now rewrite length_map.
Qed.

End TraversalFacts.

Lemma ethene_wf : wf Examples.ethene.
Proof.
  constructor; try reflexivity; simpl; repeat constructor.
Defined.

Lemma two_carbons_wf : wf Examples.two_carbons.
Proof.
  constructor; try reflexivity; simpl; repeat constructor.
Defined.

Lemma carbonyl_vertices_wf : wf Examples.carbonyl_vertices.
Proof.
  constructor; try reflexivity; simpl; repeat constructor.
Defined.

Lemma addEdge_contract_witness :
  addEdge 1 0 Chem.Single Examples.ethene = inl DuplicateEdge
  /\ addEdge 0 2 Chem.Single Examples.ethene = inl UnknownVertex
  /\ addEdge 0 0 Chem.Single Examples.two_carbons = inl SelfLoop
  /\ addEdge 0 1 (Chem.OneOf []) Examples.carbonyl_vertices = inl EmptyLabelSet
  /\ exists e g',
       addEdge 0 1 Chem.Single Examples.two_carbons = inr (e, g')
       /\ ~ In e (map edge_id (edges Examples.two_carbons))
       /\ wf g'.
Proof.
  split; [|split; [|split; [|split]]].
  - apply (proj1 (addEdge_contract Examples.ethene 1 0 Chem.Single ethene_wf)).
    right. reflexivity.
  - apply (proj1 (proj2 (addEdge_contract Examples.ethene 0 2 Chem.Single
                           ethene_wf))).
    right. reflexivity.
  - apply (proj1 (proj2 (proj2 (addEdge_contract Examples.two_carbons 0 0
                                  Chem.Single two_carbons_wf))));
      reflexivity.
  - apply (proj1 (proj2 (proj2 (proj2
             (addEdge_contract Examples.carbonyl_vertices 0 1 (Chem.OneOf [])
                carbonyl_vertices_wf)))));
      try reflexivity. discriminate.
  - destruct (proj2 (proj2 (proj2 (proj2
                (addEdge_contract Examples.two_carbons 0 1 Chem.Single
                   two_carbons_wf)))))
      as [e [g' [E [F [_ [_ W]]]]]]; try reflexivity; try discriminate.
    exists e, g'. auto.
Defined.

(** C5 as stated fails: the pair [{0, 0}] has no edge in the graph of two
    carbons and 0 is one of its vertices, and two vertices of a pattern
    that are not joined are both known; yet [addEdge] returns no edge
    identifier for the self-loop, nor for the empty label set. *)
Lemma addEdge_not_every_other_case :
  wf Examples.two_carbons
  /\ has_edge Examples.two_carbons 0 0 = false
  /\ has_vertex Examples.two_carbons 0 = true
  /\ (forall e g', addEdge 0 0 Chem.Single Examples.two_carbons <> inr (e, g'))
  /\ wf Examples.carbonyl_vertices
  /\ has_edge Examples.carbonyl_vertices 0 1 = false
  /\ has_vertex Examples.carbonyl_vertices 0 = true
  /\ has_vertex Examples.carbonyl_vertices 1 = true
  /\ (forall e g',
        addEdge 0 1 (Chem.OneOf []) Examples.carbonyl_vertices <> inr (e, g')).
Proof.
  split; [exact two_carbons_wf|].
  split; [reflexivity|]. split; [reflexivity|].
  split; [intros e g'; vm_compute; discriminate|].
  split; [exact carbonyl_vertices_wf|].
  split; [reflexivity|]. split; [reflexivity|]. split; [reflexivity|].
  intros e g'. vm_compute. discriminate.
Qed.

End GraphProps.

(* ====================================================================== *)
(** * Properties of Ring Perception *)

Module RingProps.

Import GraphCore RingPerception Chem Examples.

(** On the four-membered ring with a three-membered ring fused onto each
    bond the shortest cycle through every edge is one of the four
    three-membered rings: a search that looks only at edges not yet
    covered accepts these four, while
    [|E| - |V| + #components = 12 - 8 + 1 = 5]. *)
Lemma sssr_fused_rings :
  simple_graph fused_rings = true
  /\ sssr fused_rings = [[0; 4; 1]; [1; 5; 2]; [2; 6; 3]; [3; 7; 0]]
  /\ map (shortest_cycle fused_rings) (edges fused_rings)
     = [Some [0; 4; 1]; Some [1; 5; 2]; Some [2; 6; 3]; Some [3; 7; 0];
        Some [0; 1; 4]; Some [4; 0; 1]; Some [1; 2; 5]; Some [5; 1; 2];
        Some [2; 3; 6]; Some [6; 2; 3]; Some [3; 0; 7]; Some [7; 3; 0]]
  /\ connectedComponents fused_rings = [[0; 1; 3; 4; 7; 2; 5; 6]]
  /\ cycle_rank fused_rings = 5%Z
  /\ Z.of_nat (List.length (sssr fused_rings)) <> cycle_rank fused_rings.
Proof.
  repeat split; try (vm_compute; reflexivity).
  vm_compute. discriminate.
Qed.

Section Acyclic.

Context {VL EL : Type}.
Variable g : Graph VL EL.

Lemma path_pairs_cases (first : VertexId) (r : list VertexId) (x y : VertexId) :
  In (x, y) (path_pairs first r) ->
  next_to r x y \/ (y = first /\ exists q, r = q ++ [x]).
Proof.
  induction r as [|z r IH]; simpl; [intros []|].
  destruct r as [|z' r].
  - intros [H|[]]. injection H as -> ->. right. split; [reflexivity|].
    now exists [].
  - intros [H|H].
    + injection H as -> ->. left. now exists [], r.
    + destruct (IH H) as [[l1 [l2 E]]|[E [q Eq]]].
      * left. exists (z :: l1), l2. now rewrite E.
      * right. split; [assumption|]. exists (z :: q). now rewrite Eq.
Qed.

(** What [shortest_cycle] returns for an edge of the graph is a cycle of
    the graph. *)
Lemma shortest_cycle_is_cycle (e : Edge EL) (r : Ring) :
  no_self_loops g = true ->
  In e (edges g) ->
  shortest_cycle g e = Some r ->
  is_cycle g r.
Proof.
  intros L He H. unfold shortest_cycle, path_avoiding in H.
  set (a := endpoint1 e) in *. set (b := endpoint2 e) in *.
  assert (Nab : a <> b).
  { unfold no_self_loops in L. rewrite forallb_forall in L.
    specialize (L e He). now apply negb_true_iff, Nat.eqb_neq in L. }
  assert (Eab : has_edge g b a = true).
  { rewrite GraphProps.has_edge_sym. unfold has_edge.
    apply existsb_exists. exists e. split; [assumption|].
    unfold joins. fold a b. now rewrite !Nat.eqb_refl. }
  clearbody a b.
  apply (GraphProps.bfs_sound (neighbors_without g a b) a b) in H.
  - destruct H as [p [-> [[p' Ep] [[q Eq] [D W]]]]].
    assert (S : forall x y, next_to p x y ->
                  has_edge g y x = true /\ same_pair a b y x = false).
    { intros x y N. specialize (W x y N). unfold neighbors_without in W.
      apply filter_In in W. destruct W as [W1 W2].
      unfold neighbors in W1. apply filter_In in W1.
      apply negb_true_iff in W2. tauto. }
    split; [|split].
    + rewrite length_rev. subst p.
      destruct p' as [|y [|z p']]; simpl.
      * destruct q as [|? [|? ?]]; simpl in Eq; congruence.
      * exfalso. destruct q as [|? [|? [|? ?]]]; simpl in Eq; try congruence.
        injection Eq as _ ->.
        destruct (S b a) as [_ F]; [now exists [], []|].
        unfold same_pair in F. now rewrite !Nat.eqb_refl in F.
      * lia.
    + now apply NoDup_rev.
    + intros [x y] Hxy. simpl. unfold ring_pairs in Hxy.
      rewrite Eq, rev_app_distr in Hxy. simpl in Hxy.
      change (In (x, y) (path_pairs a (a :: rev q))) in Hxy.
      apply path_pairs_cases in Hxy.
      destruct Hxy as [N|[-> [q' Eq']]].
      * replace (a :: rev q) with (rev p) in N
          by (rewrite Eq, rev_app_distr; reflexivity).
        apply GraphProps.next_to_rev in N. now apply S.
      * assert (x = b); [|now subst x].
        assert (R : rev p = q' ++ [x]).
        { rewrite Eq, rev_app_distr. exact Eq'. }
        apply (f_equal (@rev VertexId)) in R.
        rewrite rev_involutive, rev_app_distr in R. simpl in R.
        congruence.
  - intros p [<-|[]]. right. split; [|split; [|split]].
    + now exists [].
    + repeat constructor. intros [].
    + apply incl_refl.
    + intros x y [l1 [l2 E]].
      destruct l1 as [|? [|? ?]]; simpl in E; discriminate.
Qed.

Lemma path_pairs_source (first : VertexId) (r : list VertexId) (y : VertexId) :
  In y r -> exists w, In (y, w) (path_pairs first r).
Proof.
  induction r as [|u r IH]; intros Hy; [destruct Hy|].
  destruct r as [|u' r].
  - destruct Hy as [->|[]]. exists first. now left.
  - destruct Hy as [->|Hy].
    + exists u'. now left.
    + destruct (IH Hy) as [w Hw]. exists w. now right.
Qed.

(** A cycle runs through vertices of the graph. *)
Lemma cycle_within (c : Ring) :
  endpoints_known g = true -> is_cycle g c -> incl c (vertex_ids g).
Proof.
  intros K [_ [_ H]] x Hx.
  destruct c as [|z c]; [destruct Hx|].
  destruct (path_pairs_source z (z :: c) x Hx) as [w Hw].
  specialize (H (x, w) Hw). simpl in H.
  apply (GraphProps.has_edge_known g x w K) in H.
  destruct H as [H _]. now apply GraphProps.mem_In in H.
Qed.

(** On an acyclic graph no edge has a cycle through it, so no ring is
    accepted and the ring set is empty. *)
Lemma sssr_acyclic :
  no_self_loops g = true -> acyclic g -> sssr g = [].
Proof.
  intros L A.
  assert (E : accepted_rings g = []).
  { unfold accepted_rings.
    assert (K : forall es, incl es (edges g) -> fold_left (accept_ring g) es [] = []).
    { induction es as [|e es IH]; intros I; simpl; [reflexivity|].
      unfold accept_ring at 2. simpl.
      destruct (shortest_cycle g e) as [r|] eqn:H.
      - exfalso. apply (A r).
        apply (shortest_cycle_is_cycle e); auto. apply I. now left.
      - apply IH. intros x Hx. apply I. now right. }
    apply K, incl_refl. }
  unfold sssr. rewrite E. simpl. apply firstn_nil.
Qed.

End Acyclic.

Lemma sssr_acyclic_witness : sssr Examples.ethane = [].
Proof.
  apply sssr_acyclic; [reflexivity|].
  intros c C.
  pose proof (cycle_within Examples.ethane c eq_refl C) as I.
  destruct C as [L [D _]].
  pose proof (NoDup_incl_length D I) as F. simpl in F. lia.
Defined.

End RingProps.

(* ====================================================================== *)
(** * Properties of the Isomorphism Engine *)

Module EngineProps.

Import GraphCore Chem Engine Semantics GraphProps.

(** ** The search and its step count *)

Section Mechanics.

Context {PV PE TV TE : Type}.
Variable vertex_ok : PV -> TV -> bool.
Variable edge_ok : PE -> TE -> bool.
Variable exact : bool.
Variable P : Graph PV PE.
Variable T : Graph TV TE.

Local Abbreviation feasible := (feasible vertex_ok edge_ok exact P T).
Local Abbreviation candidates := (candidates vertex_ok edge_ok exact P T).
Local Abbreviation extend_all := (extend_all vertex_ok edge_ok exact P T).
Local Abbreviation search_first := (search_first vertex_ok edge_ok exact P T).

Lemma extend_all_step (v : VertexId) (rest : list VertexId) (m f : Mapping) :
  In f (extend_all (v :: rest) m) <->
  exists w, In w (vertex_ids T) /\ feasible m v w = true
            /\ In f (extend_all rest ((v, w) :: m)).
Proof.
  simpl. rewrite in_flat_map. unfold Engine.candidates. split.
  - intros [w [Hw Hf]]. apply filter_In in Hw. exists w. tauto.
  - intros [w [Hw [Hc Hf]]]. exists w. rewrite filter_In. tauto.
Qed.

(** Without a bound the search returns the first mapping of the
    enumeration, or [NoMatch] when there is none. *)
Lemma search_first_unbounded (order : list VertexId) :
  forall (m : Mapping) (s : nat),
    fst (search_first None order m s)
    = match extend_all order m with
      | [] => NoMatch
      | f :: _ => Match f
      end.
Proof.
  induction order as [|v rest IH]; intros m s; simpl; [reflexivity|].
  generalize (candidates m v) as cands. intros cands. revert s.
  induction cands as [|w cands IHc]; intros s; simpl; [reflexivity|].
  specialize (IH ((v, w) :: m) (S s)).
  destruct (search_first None rest ((v, w) :: m) (S s)) as [r s1].
  simpl in IH.
  destruct (extend_all rest ((v, w) :: m)) as [|f fs]; subst r; simpl.
  - apply IHc.
  - reflexivity.
Qed.

Lemma try_each_monotone (k : VertexId -> nat -> Outcome * nat)
    (cands : list VertexId) :
  (forall w s, s <= snd (k w s)) ->
  forall s, s <= snd (try_each None k cands s).
Proof.
  intros Hk. induction cands as [|w cands IH]; intros s; simpl; [lia|].
  pose proof (Hk w (S s)) as H.
  destruct (k w (S s)) as [r s1]. simpl in H.
  destruct r; simpl; try lia.
  specialize (IH s1). lia.
Qed.

Lemma try_each_first_step (k : VertexId -> nat -> Outcome * nat)
    (w : VertexId) (cands : list VertexId) :
  (forall w s, s <= snd (k w s)) ->
  forall s, S s <= snd (try_each None k (w :: cands) s).
Proof.
  intros Hk s. simpl.
  pose proof (Hk w (S s)) as H.
  destruct (k w (S s)) as [r s1]. simpl in H.
  destruct r; simpl; try lia.
  pose proof (try_each_monotone k cands Hk s1). lia.
Qed.

Lemma search_first_monotone (order : list VertexId) :
  forall (m : Mapping) (s : nat), s <= snd (search_first None order m s).
Proof.
  induction order as [|v rest IH]; intros m s; simpl; [lia|].
  apply try_each_monotone. intros w s'. apply IH.
Qed.

(** The loop under a budget [b], against the loop without one: as long
    as the steps of the latter stay within [b] the two agree, otherwise
    the former stops at [b] steps with [SearchAborted]. *)
Lemma try_each_bounded (b : nat) (kn kb : VertexId -> nat -> Outcome * nat)
    (cands : list VertexId) :
  (forall w s, s <= snd (kn w s)) ->
  (forall w s, s <= b ->
     (snd (kn w s) <= b -> kb w s = kn w s)
     /\ (b < snd (kn w s) -> kb w s = (SearchAborted, b))) ->
  forall s, s <= b ->
    (snd (try_each None kn cands s) <= b ->
       try_each (Some b) kb cands s = try_each None kn cands s)
    /\ (b < snd (try_each None kn cands s) ->
       try_each (Some b) kb cands s = (SearchAborted, b)).
Proof.
  intros Hm Hk. induction cands as [|w cands IH]; intros s Hs.
  - simpl. split; [reflexivity | lia].
  - pose proof (try_each_first_step kn w cands Hm s) as Hfirst.
    cbn [try_each exceeded] in *.
    destruct (Nat.leb b s) eqn:Eb.
    + apply Nat.leb_le in Eb. assert (s = b) by lia. subst s.
      split; [lia | reflexivity].
    + apply Nat.leb_gt in Eb.
      destruct (Hk w (S s)) as [Hle Hgt]; [lia|].
      pose proof (Hm w (S s)) as Hmono.
      destruct (kn w (S s)) as [r s1] eqn:E. simpl in Hle, Hgt, Hmono.
      destruct (le_lt_dec s1 b) as [L|G].
      * rewrite (Hle L).
        destruct r; try (split; [reflexivity | simpl; lia]).
        apply IH. exact L.
      * rewrite (Hgt G). split; [|reflexivity].
        intros F. exfalso.
        destruct r; simpl in F; try lia.
        pose proof (try_each_monotone kn cands Hm s1). lia.
Qed.

Lemma search_first_bounded (b : nat) (order : list VertexId) :
  forall (m : Mapping) (s : nat), s <= b ->
    (snd (search_first None order m s) <= b ->
       search_first (Some b) order m s = search_first None order m s)
    /\ (b < snd (search_first None order m s) ->
       search_first (Some b) order m s = (SearchAborted, b)).
Proof.
  induction order as [|v rest IH]; intros m s Hs.
  - simpl. split; [reflexivity | lia].
  - cbn [Engine.search_first].
    apply try_each_bounded.
    + intros w s'. apply search_first_monotone.
    + intros w s' Hs'. apply IH. exact Hs'.
    + exact Hs.
Qed.

End Mechanics.

(** ** Mappings as lists and as functions *)

Lemma image_head (v w : VertexId) (m : Mapping) : image ((v, w) :: m) v = Some w.
Proof.
  unfold image. simpl. now rewrite Nat.eqb_refl.
Qed.

Lemma image_tail (u v w : VertexId) (m : Mapping) :
  u <> v -> image ((v, w) :: m) u = image m u.
Proof.
  intros N. unfold image. simpl.
  destruct (v =? u) eqn:E; [apply Nat.eqb_eq in E; congruence | reflexivity].
Qed.

Lemma image_In (m : Mapping) (v w : VertexId) :
  NoDup (map fst m) -> In (v, w) m -> image m v = Some w.
Proof.
  induction m as [|[a b] m IH]; simpl; intros D H; [destruct H|].
  inversion D as [|? ? Na Dm]; subst.
  destruct H as [H|H].
  - injection H as -> ->. apply image_head.
  - rewrite image_tail; [auto|].
    intros ->. apply Na. apply in_map_iff. exists (a, w). auto.
Qed.

Lemma image_Some_In (m : Mapping) (v w : VertexId) :
  image m v = Some w -> In (v, w) m.
Proof.
  unfold image.
  destruct (find (fun p => fst p =? v) m) as [p|] eqn:F; [|discriminate].
  intros E. injection E as <-. apply find_some in F. destruct F as [Hp E].
  apply Nat.eqb_eq in E. subst v. now destruct p.
Qed.

Lemma apply_In (m : Mapping) (v w : VertexId) :
  NoDup (map fst m) -> In (v, w) m -> apply m v = w.
Proof.
  intros D H. unfold apply. now rewrite (image_In m v w D H).
Qed.

Lemma in_keys_apply (m : Mapping) (v : VertexId) :
  In v (map fst m) -> In (v, apply m v) m.
Proof.
  intros H. unfold apply. destruct (image m v) as [w|] eqn:E.
  - now apply image_Some_In.
  - exfalso. unfold image in E.
    destruct (find (fun p => fst p =? v) m) as [p|] eqn:F; [discriminate|].
    apply in_map_iff in H. destruct H as [q [Eq Hq]].
    apply (find_none _ _ F) in Hq. simpl in Hq.
    apply Nat.eqb_neq in Hq. congruence.
Qed.

Lemma preimage_Some_In (m : Mapping) (v w : VertexId) :
  preimage m w = Some v -> In (v, w) m.
Proof.
  unfold preimage.
  destruct (find (fun p => snd p =? w) m) as [p|] eqn:F; [|discriminate].
  intros E. injection E as <-. apply find_some in F. destruct F as [Hp E].
  apply Nat.eqb_eq in E. subst w. now destruct p.
Qed.

Lemma in_values_unapply (m : Mapping) (w : VertexId) :
  In w (map snd m) -> In (unapply m w, w) m.
Proof.
  intros H. unfold unapply. destruct (preimage m w) as [v|] eqn:E.
  - now apply preimage_Some_In.
  - exfalso. unfold preimage in E.
    destruct (find (fun p => snd p =? w) m) as [p|] eqn:F; [discriminate|].
    apply in_map_iff in H. destruct H as [q [Eq Hq]].
    apply (find_none _ _ F) in Hq. simpl in Hq.
    apply Nat.eqb_neq in Hq. congruence.
Qed.

Lemma values_injective (m : Mapping) (u v w : VertexId) :
  NoDup (map snd m) -> In (u, w) m -> In (v, w) m -> u = v.
Proof.
  induction m as [|[a b] m IH]; simpl; intros D Hu Hv; [destruct Hu|].
  inversion D as [|? ? Nb Dm]; subst.
  assert (K : forall x, In (x, b) m -> False).
  { intros x Hx. apply Nb. apply in_map_iff. exists (x, b). auto. }
  destruct Hu as [Hu|Hu], Hv as [Hv|Hv].
  - congruence.
  - injection Hu as -> ->. exfalso. eauto.
  - injection Hv as -> ->. exfalso. eauto.
  - eauto.
Qed.

(** A mapping with distinct keys is the list of its own function. *)
Lemma mapping_canonical (m : Mapping) :
  NoDup (map fst m) -> m = map (fun v => (v, apply m v)) (map fst m).
Proof.
  intros D. rewrite map_map.
  rewrite <- (map_id m) at 1. apply map_ext_in.
  intros [v w] H. simpl. now rewrite (apply_In m v w D H).
Qed.

Lemma graph_of_snoc (sigma : VertexId -> VertexId) (done : list VertexId)
    (v : VertexId) :
  graph_of sigma (done ++ [v]) = (v, sigma v) :: graph_of sigma done.
Proof.
  unfold graph_of. now rewrite rev_app_distr.
Qed.

Lemma graph_of_keys (sigma : VertexId -> VertexId) (order : list VertexId) :
  map fst (graph_of sigma order) = rev order.
Proof.
  unfold graph_of. rewrite map_map. simpl. apply map_id.
Qed.

Lemma graph_of_values (sigma : VertexId -> VertexId) (order : list VertexId) :
  map snd (graph_of sigma order) = map sigma (rev order).
Proof.
  unfold graph_of. now rewrite map_map.
Qed.

Lemma apply_graph_of (sigma : VertexId -> VertexId) (order : list VertexId)
    (v : VertexId) :
  In v order -> apply (graph_of sigma order) v = sigma v.
Proof.
  intros H.
  assert (K : In v (map fst (graph_of sigma order))).
  { rewrite graph_of_keys. now apply -> in_rev. }
  apply in_keys_apply in K.
  set (w := apply (graph_of sigma order) v) in *.
  unfold graph_of in K. apply in_map_iff in K.
  destruct K as [x [Ex _]]. injection Ex as -> E. now symmetry.
Qed.

(** ** The search finds the embeddings, and all of them *)

Section Bridge.

Context {PV PE TV TE : Type}.
Variable vertex_ok : PV -> TV -> bool.
Variable edge_ok : PE -> TE -> bool.
Variable exact : bool.
Variable P : Graph PV PE.
Variable T : Graph TV TE.

Local Abbreviation vertex_feasible := (vertex_feasible vertex_ok P T).
Local Abbreviation edge_feasible := (edge_feasible edge_ok exact P T).
Local Abbreviation feasible := (feasible vertex_ok edge_ok exact P T).
Local Abbreviation extend_all := (extend_all vertex_ok edge_ok exact P T).
Local Abbreviation embedding := (embedding vertex_ok edge_ok exact P T).
Local Abbreviation partial_embedding :=
  (partial_embedding vertex_ok edge_ok exact P T).

Lemma edge_feasible_sym (v w v' w' : VertexId) :
  edge_feasible v w v' w' = edge_feasible v' w' v w.
Proof.
  unfold Engine.edge_feasible.
  now rewrite (edge_between_sym P v v'), (edge_between_sym T w w').
Qed.

Lemma vertex_feasible_target (v w : VertexId) :
  vertex_feasible v w = true -> In w (vertex_ids T).
Proof.
  unfold Engine.vertex_feasible.
  destruct (vertex_labels P v); [|discriminate].
  destruct (vertex_labels T w) as [tl|] eqn:E; [|discriminate].
  intros _. eapply vertex_labels_In; eauto.
Qed.

Lemma embedding_vertex_feasible (sigma : VertexId -> VertexId) (v : VertexId) :
  embedding sigma -> In v (vertex_ids P) -> vertex_feasible v (sigma v) = true.
Proof.
  intros E H. destruct (emb_vertex _ _ _ _ _ _ E v H) as [pl [tl [A [B C]]]].
  unfold Engine.vertex_feasible. now rewrite A, B.
Qed.

Lemma embedding_edge_feasible (sigma : VertexId -> VertexId) (u v : VertexId) :
  embedding sigma -> In u (vertex_ids P) -> In v (vertex_ids P) ->
  edge_feasible u (sigma u) v (sigma v) = true.
Proof.
  intros E Hu Hv. unfold Engine.edge_feasible.
  destruct (edge_between P u v) as [pl|] eqn:A.
  - destruct (emb_edge _ _ _ _ _ _ E u v pl Hu Hv A) as [tl [B C]].
    now rewrite B.
  - destruct (edge_between T (sigma u) (sigma v)) as [tl|] eqn:B; [|reflexivity].
    destruct exact; [|reflexivity].
    rewrite (emb_non_edge _ _ _ _ _ _ E eq_refl u v Hu Hv A) in B.
    discriminate.
Qed.

(** Completeness: the search, having mapped [done] by [sigma], reaches
    the whole of [sigma]. *)
Lemma extend_all_reaches (sigma : VertexId -> VertexId) :
  embedding sigma ->
  forall rest done,
    NoDup (done ++ rest) ->
    incl (done ++ rest) (vertex_ids P) ->
    In (graph_of sigma (done ++ rest)) (extend_all rest (graph_of sigma done)).
Proof.
  intros E. induction rest as [|v rest IH]; intros done D I.
  - rewrite app_nil_r. simpl. now left.
  - apply extend_all_step. exists (sigma v).
    assert (Hv : In v (vertex_ids P)).
    { apply I. apply in_or_app. right. now left. }
    pose proof (embedding_vertex_feasible sigma v E Hv) as Fv.
    split; [|split].
    + eapply vertex_feasible_target; eauto.
    + unfold Engine.feasible. rewrite Fv.
      rewrite !andb_true_iff. split; [split; [|reflexivity]|].
      * apply negb_true_iff, mem_not_In. rewrite graph_of_values.
        intros F. apply in_map_iff in F. destruct F as [u [Eu Hu]].
        apply in_rev in Hu.
        assert (u = v).
        { apply (emb_injective _ _ _ _ _ _ E); auto.
          apply I. apply in_or_app. now left. }
        subst u. apply NoDup_remove_2 in D. apply D.
        apply in_or_app. now left.
      * apply forallb_forall. intros p Hp. unfold graph_of in Hp.
        apply in_map_iff in Hp. destruct Hp as [u [<- Hu]]. simpl.
        apply in_rev in Hu. apply embedding_edge_feasible; auto.
        apply I. apply in_or_app. now left.
    + rewrite <- graph_of_snoc.
      replace (done ++ v :: rest) with ((done ++ [v]) ++ rest)
        by (rewrite <- app_assoc; reflexivity).
      apply IH.
      * rewrite <- app_assoc. exact D.
      * rewrite <- app_assoc. exact I.
Qed.

(** Soundness: the search keeps the invariant of partial mappings. *)
Lemma extend_all_keeps (rest : list VertexId) :
  forall (m f : Mapping),
    partial_embedding m ->
    NoDup rest ->
    (forall v, In v rest -> ~ In v (map fst m)) ->
    In f (extend_all rest m) ->
    partial_embedding f /\ map fst f = rev rest ++ map fst m.
Proof.
  induction rest as [|v rest IH]; intros m f C D N H.
  - simpl in H. destruct H as [<-|[]]. auto.
  - apply extend_all_step in H. destruct H as [w [Hw [Fw H]]].
    unfold Engine.feasible in Fw. rewrite !andb_true_iff in Fw.
    destruct Fw as [[F1 F2] F3].
    apply negb_true_iff, mem_not_In in F1.
    rewrite forallb_forall in F3.
    inversion D as [|? ? Nv Dr]; subst.
    destruct C as [Ck Cv Cx Ce].
    destruct (IH ((v, w) :: m) f) as [Cf Kf]; auto.
    + constructor; simpl.
      * constructor; [apply N; now left | assumption].
      * constructor; assumption.
      * intros a b [Hab|Hab]; [injection Hab as <- <-; assumption | eauto].
      * intros a b a' b' [H1|H1] [H2|H2] Na.
        -- congruence.
        -- injection H1 as <- <-. apply (F3 (a', b') H2).
        -- injection H2 as <- <-. rewrite edge_feasible_sym.
           apply (F3 (a, b) H1).
        -- eauto.
    + intros u Hu [F|F].
      * simpl in F. subst u. contradiction.
      * apply (N u); [now right | assumption].
    + split; [assumption|]. rewrite Kf. simpl.
      now rewrite <- app_assoc.
Qed.

(** A complete consistent mapping is an embedding. *)
Lemma partial_embedding_complete (f : Mapping) :
  partial_embedding f ->
  (forall v, In v (vertex_ids P) <-> In v (map fst f)) ->
  NoDup (vertex_ids P) -> NoDup (vertex_ids T) ->
  no_self_loops P = true -> no_self_loops T = true ->
  (exact = true -> List.length (vertices P) = List.length (vertices T)) ->
  embedding (apply f).
Proof.
  intros [Ck Cv Cx Ce] K DP DT LP LT Sz.
  assert (A : forall v, In v (vertex_ids P) -> In (v, apply f v) f).
  { intros v Hv. apply in_keys_apply. now apply K. }
  constructor.
  - intros v Hv. specialize (Cx _ _ (A v Hv)).
    unfold Engine.vertex_feasible in Cx.
    destruct (vertex_labels P v) as [pl|]; [|discriminate].
    destruct (vertex_labels T (apply f v)) as [tl|]; [|discriminate].
    exists pl, tl. auto.
  - intros u v Hu Hv E. pose proof (A u Hu) as Au. pose proof (A v Hv) as Av.
    rewrite E in Au. eapply values_injective; eauto.
  - intros u v pl Hu Hv E.
    destruct (Nat.eq_dec u v) as [->|Nuv].
    + rewrite edge_between_self in E by assumption. discriminate.
    + specialize (Ce _ _ _ _ (A u Hu) (A v Hv) Nuv).
      unfold Engine.edge_feasible in Ce. rewrite E in Ce.
      destruct (edge_between T (apply f u) (apply f v)) as [tl|];
        [|discriminate].
      exists tl. auto.
  - intros X u v Hu Hv E.
    destruct (Nat.eq_dec u v) as [->|Nuv].
    + now apply edge_between_self.
    + specialize (Ce _ _ _ _ (A u Hu) (A v Hv) Nuv).
      unfold Engine.edge_feasible in Ce. rewrite E, X in Ce.
      destruct (edge_between T (apply f u) (apply f v)) as [tl|];
        [discriminate | reflexivity].
  - intros X w Hw. specialize (Sz X).
    assert (I : incl (vertex_ids T) (map snd f)).
    { apply NoDup_length_incl; [assumption | |].
      - assert (L : List.length (vertex_ids P) = List.length (map fst f)).
        { apply Permutation_length. apply NoDup_Permutation; assumption. }
        unfold vertex_ids in *. rewrite !length_map in *. lia.
      - intros x Hx. apply in_map_iff in Hx. destruct Hx as [[a b] [<- Hab]].
        simpl. eapply vertex_feasible_target. eauto. }
    specialize (I w Hw). apply in_values_unapply in I.
    exists (unapply f w). split.
    + apply K. apply in_map_iff. exists (unapply f w, w). auto.
    + now apply apply_In.
Qed.

End Bridge.

(** The order of the search is a rearrangement of the vertices. *)
Lemma insert_by_perm (key : VertexId -> nat) (v : VertexId) (l : list VertexId) :
  Permutation (insert_by key v l) (v :: l).
Proof.
  induction l as [|x l IH]; simpl; [reflexivity|].
  destruct (key x <=? key v); [reflexivity|].
  rewrite IH. apply perm_swap.
Qed.

Lemma sort_by_perm (key : VertexId -> nat) (l : list VertexId) :
  Permutation (sort_by key l) l.
Proof.
  induction l as [|v l IH]; simpl; [reflexivity|].
  rewrite insert_by_perm. now constructor.
Qed.

Lemma search_order_perm {VL EL : Type} (sel : Invariant VL -> nat)
    (g : Graph VL EL) :
  Permutation (search_order sel g) (vertex_ids g).
Proof.
  apply sort_by_perm.
Qed.

(** Vertices with one and the same key stay in insertion order. *)
Lemma sort_by_constant (key : VertexId -> nat) (c : nat) (l : list VertexId) :
  (forall v, In v l -> key v = c) -> sort_by key l = l.
Proof.
  induction l as [|v l IH]; intros H; simpl; [reflexivity|].
  rewrite IH by (intros; apply H; now right).
  destruct l as [|x l]; simpl; [reflexivity|].
  rewrite (H v), (H x) by (simpl; auto). now rewrite Nat.leb_refl.
Qed.

Lemma injective_NoDup_map (sigma : VertexId -> VertexId) (l : list VertexId) :
  (forall u v, In u l -> In v l -> sigma u = sigma v -> u = v) ->
  NoDup l -> NoDup (map sigma l).
Proof.
  intros I D. induction D as [|x l N D IH]; simpl; constructor.
  - intros F. apply in_map_iff in F. destruct F as [y [E Hy]].
    apply N. rewrite (I x y); simpl; auto.
  - apply IH. intros u v Hu Hv. apply I; now right.
Qed.

(** ** The queries *)

Section QueryFacts.

Context {PV PE TV TE : Type}.
Variable vertex_ok : PV -> TV -> bool.
Variable edge_ok : PE -> TE -> bool.
Variable selectivity : Invariant PV -> nat.
Variable exact : bool.
Variable P : Graph PV PE.
Variable T : Graph TV TE.

Local Abbreviation embedding := (embedding vertex_ok edge_ok exact P T).
Local Abbreviation order := (search_order selectivity P).
Local Abbreviation extend_all := (extend_all vertex_ok edge_ok exact P T).

Lemma order_NoDup : NoDup (vertex_ids P) -> NoDup order.
Proof.
  intros D. eapply Permutation_NoDup; [|exact D].
  symmetry. apply search_order_perm.
Qed.

Lemma order_In (v : VertexId) : In v order <-> In v (vertex_ids P).
Proof.
  split; apply Permutation_in;
    [apply search_order_perm | symmetry; apply search_order_perm].
Qed.

(** An exact embedding is a bijection, so the vertex counts agree. *)
Lemma embedding_sizes (sigma : VertexId -> VertexId) :
  embedding sigma -> exact = true ->
  NoDup (vertex_ids P) -> NoDup (vertex_ids T) ->
  List.length (vertices P) = List.length (vertices T).
Proof.
  intros E X DP DT.
  assert (D : NoDup (map sigma (vertex_ids P))).
  { apply injective_NoDup_map; [|assumption].
    apply (emb_injective _ _ _ _ _ _ E). }
  assert (I1 : incl (map sigma (vertex_ids P)) (vertex_ids T)).
  { intros w Hw. apply in_map_iff in Hw. destruct Hw as [v [<- Hv]].
    destruct (emb_vertex _ _ _ _ _ _ E v Hv) as [pl [tl [_ [B _]]]].
    eapply vertex_labels_In; eauto. }
  assert (I2 : incl (vertex_ids T) (map sigma (vertex_ids P))).
  { intros w Hw. destruct (emb_onto _ _ _ _ _ _ E X w Hw) as [v [Hv <-]].
    now apply in_map. }
  pose proof (NoDup_incl_length D I1) as L1.
  pose proof (NoDup_incl_length DT I2) as L2.
  unfold vertex_ids in *. rewrite !length_map in *. lia.
Qed.

(** Every mapping of the enumeration is an embedding, written on the
    search order. *)
Lemma extend_all_sound (f : Mapping) :
  simple_graph P = true -> simple_graph T = true ->
  size_mismatch exact P T = false ->
  In f (extend_all order []) ->
  embedding (apply f) /\ f = graph_of (apply f) order.
Proof.
  intros SP ST Sz H.
  destruct (simple_graph_parts P SP) as [DP [_ [LP _]]].
  destruct (simple_graph_parts T ST) as [DT [_ [LT _]]].
  destruct (extend_all_keeps vertex_ok edge_ok exact P T order [] f) as [C K].
  - constructor; simpl; try constructor; intros; contradiction.
  - now apply order_NoDup.
  - intros v _ [].
  - exact H.
  - simpl in K. rewrite app_nil_r in K. split.
    + apply partial_embedding_complete; auto.
      * intros v. rewrite K, <- in_rev. symmetry. apply order_In.
      * intros X. unfold size_mismatch in Sz. rewrite X in Sz. simpl in Sz.
        apply negb_false_iff, Nat.eqb_eq in Sz. exact Sz.
    + unfold graph_of. rewrite <- K. apply mapping_canonical.
      now destruct C.
Qed.

(** Every embedding is in the enumeration. *)
Lemma extend_all_complete (sigma : VertexId -> VertexId) :
  NoDup (vertex_ids P) -> embedding sigma ->
  In (graph_of sigma order) (extend_all order []).
Proof.
  intros DP E.
  apply (extend_all_reaches vertex_ok edge_ok exact P T sigma E order []).
  - simpl. now apply order_NoDup.
  - simpl. intros v Hv. now apply order_In.
Qed.

Lemma embedding_no_mismatch (sigma : VertexId -> VertexId) :
  simple_graph P = true -> simple_graph T = true ->
  embedding sigma -> size_mismatch exact P T = false.
Proof.
  intros SP ST E.
  destruct (simple_graph_parts P SP) as [DP _].
  destruct (simple_graph_parts T ST) as [DT _].
  unfold size_mismatch.
  destruct (bool_dec exact true) as [X|X].
  - rewrite X. simpl. apply negb_false_iff, Nat.eqb_eq.
    apply (embedding_sizes sigma); auto.
  - apply not_true_is_false in X. now rewrite X.
Qed.

(** A mapping returned by the unbounded query is an embedding. *)
Lemma find_mapping_sound (f : Mapping) :
  find_mapping vertex_ok edge_ok selectivity exact None P T = Match f ->
  simple_graph P = true /\ simple_graph T = true /\ embedding (apply f).
Proof.
  unfold find_mapping, run_query.
  destruct (simple_graph P && simple_graph T) eqn:S; [|discriminate].
  apply andb_true_iff in S. destruct S as [SP ST].
  destruct (size_mismatch exact P T) eqn:Sz; [discriminate|].
  rewrite search_first_unbounded. intros H.
  destruct (extend_all order []) as [|f0 fs] eqn:X; [discriminate|].
  injection H as ->.
  split; [assumption | split; [assumption|]].
  apply extend_all_sound; auto. rewrite X. now left.
Qed.

(** When an embedding exists the unbounded query returns one. *)
Lemma find_mapping_complete (sigma : VertexId -> VertexId) :
  simple_graph P = true -> simple_graph T = true ->
  embedding sigma ->
  exists f, find_mapping vertex_ok edge_ok selectivity exact None P T = Match f.
Proof.
  intros SP ST E. unfold find_mapping, run_query.
  rewrite SP, ST, (embedding_no_mismatch sigma SP ST E). simpl.
  rewrite search_first_unbounded.
  destruct (simple_graph_parts P SP) as [DP _].
  pose proof (extend_all_complete sigma DP E) as H.
  destruct (extend_all order []) as [|f fs]; [destruct H|].
  now exists f.
Qed.

(** [NoMatch] from the unbounded query: no embedding exists. *)
Lemma find_mapping_no_match :
  find_mapping vertex_ok edge_ok selectivity exact None P T = NoMatch ->
  ~ exists sigma, embedding sigma.
Proof.
  intros H [sigma E].
  assert (S : simple_graph P && simple_graph T = true).
  { unfold find_mapping, run_query in H.
    destruct (simple_graph P && simple_graph T); [reflexivity | discriminate]. }
  apply andb_true_iff in S. destruct S as [SP ST].
  destruct (find_mapping_complete sigma SP ST E) as [f Hf]. congruence.
Qed.

(** The unbounded query never gives up. *)
Lemma unbounded_not_aborted :
  find_mapping vertex_ok edge_ok selectivity exact None P T <> SearchAborted.
Proof.
  unfold find_mapping, run_query.
  destruct (simple_graph P && simple_graph T); [|discriminate].
  destruct (size_mismatch exact P T); [discriminate|].
  rewrite search_first_unbounded.
  destruct (extend_all order []); discriminate.
Qed.

(** The bounded query against the unbounded one. *)
Lemma run_query_bounded (budget : nat) :
  (steps_needed vertex_ok edge_ok selectivity exact P T <= budget ->
     run_query vertex_ok edge_ok selectivity exact (Some budget) P T
     = run_query vertex_ok edge_ok selectivity exact None P T)
  /\ (budget < steps_needed vertex_ok edge_ok selectivity exact P T ->
     run_query vertex_ok edge_ok selectivity exact (Some budget) P T
     = (SearchAborted, budget)).
Proof.
  unfold steps_needed, run_query.
  destruct (simple_graph P && simple_graph T); [|simpl; split; [auto | lia]].
  destruct (size_mismatch exact P T); [simpl; split; [auto | lia]|].
  apply search_first_bounded. lia.
Qed.

End QueryFacts.

(** C7: a bounded match query, exact or subgraph, whose step budget is
    exceeded before the search completes returns [SearchAborted] and not
    [NoMatch]; [SearchAborted] is returned in that case only; within the
    budget the bounded query returns what the unbounded one returns; so
    [NoMatch] is returned only when the search ran to its end within the
    budget and no embedding exists. *)
Theorem bounded_query_outcomes {PV PE TV TE : Type}
    (vertex_ok : PV -> TV -> bool) (edge_ok : PE -> TE -> bool)
    (selectivity : Invariant PV -> nat) (exact : bool) (budget : nat)
    (P : Graph PV PE) (T : Graph TV TE) :
  let bounded :=
    find_mapping vertex_ok edge_ok selectivity exact (Some budget) P T in
  let unbounded :=
    find_mapping vertex_ok edge_ok selectivity exact None P T in
  let needed := steps_needed vertex_ok edge_ok selectivity exact P T in
  (budget < needed -> bounded = SearchAborted /\ bounded <> NoMatch)
  /\ (bounded = SearchAborted -> budget < needed)
  /\ (needed <= budget -> bounded = unbounded)
  /\ (bounded = NoMatch ->
      needed <= budget
      /\ ~ exists sigma, embedding vertex_ok edge_ok exact P T sigma).
Proof.
  intros bounded unbounded needed.
  destruct (run_query_bounded vertex_ok edge_ok selectivity exact P T budget)
    as [Hle Hgt].
  fold needed in Hle, Hgt.
  assert (A : budget < needed -> bounded = SearchAborted).
  { intros L. unfold bounded, find_mapping. now rewrite (Hgt L). }
  assert (B : needed <= budget -> bounded = unbounded).
  { intros L. unfold bounded, unbounded, find_mapping. now rewrite (Hle L). }
  split; [|split; [|split]].
  - intros L. rewrite (A L). split; [reflexivity | discriminate].
  - intros E. destruct (le_lt_dec needed budget) as [L|L]; [|exact L].
    exfalso. rewrite (B L) in E.
    now apply (unbounded_not_aborted vertex_ok edge_ok selectivity exact P T).
  - exact B.
  - intros E. destruct (le_lt_dec needed budget) as [L|L].
    + split; [exact L|]. rewrite (B L) in E.
      now apply (find_mapping_no_match vertex_ok edge_ok selectivity exact P T).
    + rewrite (A L) in E. discriminate.
Qed.

(** ** Automorphisms *)

Lemma atom_eqb_eq (a b : Atom) : atom_eqb a b = true <-> a = b.
Proof.
  destruct a as [e1 i1 r1 l1 c1], b as [e2 i2 r2 l2 c2].
  unfold atom_eqb. simpl.
  rewrite !andb_true_iff, String.eqb_eq, !Nat.eqb_eq, Z.eqb_eq.
  split.
  - intros [[[[-> ->] ->] ->] ->]. reflexivity.
  - intros H. injection H as -> -> -> -> ->. auto.
Qed.

Lemma bond_eqb_eq (a b : BondOrder) : bond_eqb a b = true <-> a = b.
Proof.
  destruct a, b; simpl; split; intros H; try reflexivity; discriminate.
Qed.

Section AutomorphismFacts.

Context {VL EL : Type}.
Variable veq : VL -> VL -> bool.
Variable eeq : EL -> EL -> bool.
Hypothesis veq_eq : forall a b, veq a b = true <-> a = b.
Hypothesis eeq_eq : forall a b, eeq a b = true <-> a = b.
Variable g : Graph VL EL.
Hypothesis g_simple : simple_graph g = true.

(** With equality as the compatibility predicate the exact embeddings of
    a graph in itself are its automorphisms. *)
Lemma embedding_automorphism (sigma : VertexId -> VertexId) :
  embedding veq eeq true g g sigma -> automorphism g sigma.
Proof.
  intros E. constructor.
  - intros v Hv. destruct (emb_vertex _ _ _ _ _ _ E v Hv) as [pl [tl [_ [B _]]]].
    eapply vertex_labels_In; eauto.
  - apply (emb_injective _ _ _ _ _ _ E).
  - intros v Hv. destruct (emb_vertex _ _ _ _ _ _ E v Hv) as [pl [tl [A [B C]]]].
    apply veq_eq in C. congruence.
  - intros u v Hu Hv. destruct (edge_between g u v) as [pl|] eqn:A.
    + destruct (emb_edge _ _ _ _ _ _ E u v pl Hu Hv A) as [tl [B C]].
      apply eeq_eq in C. congruence.
    + now apply (emb_non_edge _ _ _ _ _ _ E).
Qed.

Lemma automorphism_embedding (sigma : VertexId -> VertexId) :
  automorphism g sigma -> embedding veq eeq true g g sigma.
Proof.
  intros [Ac Ai Av Ae].
  destruct (simple_graph_parts g g_simple) as [D _].
  constructor.
  - intros v Hv. destruct (In_vertex_labels g v Hv) as [l Hl].
    exists l, l. rewrite Av by assumption.
    repeat split; auto. now apply veq_eq.
  - exact Ai.
  - intros u v pl Hu Hv E. exists pl. rewrite Ae by assumption.
    split; [assumption | now apply eeq_eq].
  - intros _ u v Hu Hv E. now rewrite Ae.
  - intros _ w Hw.
    assert (I : incl (vertex_ids g) (map sigma (vertex_ids g))).
    { apply NoDup_length_incl.
      - now apply injective_NoDup_map.
      - rewrite length_map. lia.
      - intros x Hx. apply in_map_iff in Hx. destruct Hx as [v [<- Hv]]. auto. }
    specialize (I w Hw). apply in_map_iff in I.
    destruct I as [v [<- Hv]]. eauto.
Qed.

Lemma automorphism_identity : automorphism g (fun v => v).
Proof.
  constructor; auto.
Qed.

Lemma automorphism_compose (sigma tau : VertexId -> VertexId) :
  automorphism g sigma -> automorphism g tau ->
  automorphism g (fun v => tau (sigma v)).
Proof.
  intros [Sc Si Sv Se] [Tc Ti Tv Te]. constructor.
  - auto.
  - intros u v Hu Hv E. apply Si; auto.
  - intros v Hv. rewrite Tv; auto.
  - intros u v Hu Hv. rewrite Te; auto.
Qed.

(** Where [f] is an automorphism on all vertices, [unapply f] undoes it. *)
Lemma apply_unapply (f : Mapping) :
  NoDup (map fst f) ->
  (forall v, In v (vertex_ids g) <-> In v (map fst f)) ->
  automorphism g (apply f) ->
  forall w, In w (vertex_ids g) ->
    In (unapply f w) (vertex_ids g) /\ apply f (unapply f w) = w.
Proof.
  intros Dk K A w Hw.
  pose proof (automorphism_embedding (apply f) A) as E.
  destruct (emb_onto _ _ _ _ _ _ E eq_refl w Hw) as [v [Hv Ev]].
  assert (Hin : In w (map snd f)).
  { apply in_map_iff. exists (v, w). split; [reflexivity|].
    rewrite <- Ev. apply in_keys_apply. now apply K. }
  apply in_values_unapply in Hin. split.
  - apply K. apply in_map_iff. exists (unapply f w, w). auto.
  - now apply apply_In.
Qed.

Lemma unapply_apply (f : Mapping) :
  NoDup (map fst f) ->
  (forall v, In v (vertex_ids g) <-> In v (map fst f)) ->
  automorphism g (apply f) ->
  forall v, In v (vertex_ids g) -> unapply f (apply f v) = v.
Proof.
  intros Dk K A v Hv.
  destruct (apply_unapply f Dk K A (apply f v)) as [Hu Eu].
  - now apply (aut_closed _ _ A).
  - now apply (aut_injective _ _ A).
Qed.

(** The inverse of an automorphism given as a mapping on all vertices. *)
Lemma automorphism_inverse (f : Mapping) :
  NoDup (map fst f) ->
  (forall v, In v (vertex_ids g) <-> In v (map fst f)) ->
  automorphism g (apply f) ->
  automorphism g (unapply f).
Proof.
  intros Dk K A.
  pose proof (apply_unapply f Dk K A) as R.
  destruct A as [Ac Ai Av Ae]. constructor.
  - intros w Hw. now apply R.
  - intros w1 w2 H1 H2 Eq.
    destruct (R w1 H1) as [_ <-]. destruct (R w2 H2) as [_ <-].
    now rewrite Eq.
  - intros w Hw. destruct (R w Hw) as [Hu Eu].
    rewrite <- (Av _ Hu). now rewrite Eu.
  - intros w1 w2 H1 H2.
    destruct (R w1 H1) as [Hu1 Eu1]. destruct (R w2 H2) as [Hu2 Eu2].
    rewrite <- (Ae _ _ Hu1 Hu2). now rewrite Eu1, Eu2.
Qed.

Variable selectivity : Invariant VL -> nat.

Local Abbreviation order := (search_order selectivity g).
Local Abbreviation enumeration :=
  (extend_all veq eeq true g g (search_order selectivity g) []).

Lemma size_match : size_mismatch true g g = false.
Proof.
  unfold size_mismatch. now rewrite Nat.eqb_refl.
Qed.

Lemma enumeration_sound (f : Mapping) :
  In f enumeration ->
  automorphism g (apply f) /\ f = graph_of (apply f) order.
Proof.
  intros H.
  destruct (extend_all_sound veq eeq selectivity true g g f
              g_simple g_simple size_match H) as [E C].
  split; [now apply embedding_automorphism | exact C].
Qed.

Lemma enumeration_complete (sigma : VertexId -> VertexId) :
  automorphism g sigma -> In (graph_of sigma order) enumeration.
Proof.
  intros A. destruct (simple_graph_parts g g_simple) as [D _].
  apply extend_all_complete; [assumption|].
  now apply automorphism_embedding.
Qed.

Lemma enumeration_keys (f : Mapping) :
  In f enumeration ->
  map fst f = rev order /\ NoDup (map fst f)
  /\ (forall v, In v (vertex_ids g) <-> In v (map fst f)).
Proof.
  intros H. destruct (enumeration_sound f H) as [_ C].
  destruct (simple_graph_parts g g_simple) as [D _].
  assert (K : map fst f = rev order).
  { rewrite C at 1. apply graph_of_keys. }
  split; [exact K|]. rewrite K. split.
  - apply NoDup_rev. now apply order_NoDup.
  - intros v. rewrite <- in_rev. symmetry. apply order_In.
Qed.

Lemma enumeration_identity :
  exists i, In i enumeration
            /\ (forall v, In v (vertex_ids g) -> image i v = Some v)
            /\ (forall v, apply i v = v).
Proof.
  exists (graph_of (fun v => v) order).
  assert (I : forall v, In v (vertex_ids g) ->
                image (graph_of (fun v => v) order) v = Some v).
  { intros v Hv. apply image_In.
    - rewrite graph_of_keys. apply NoDup_rev, order_NoDup.
      now destruct (simple_graph_parts g g_simple).
    - unfold graph_of. apply in_map_iff. exists v. split; [reflexivity|].
      apply -> in_rev. now apply order_In. }
  split; [|split].
  - apply enumeration_complete, automorphism_identity.
  - exact I.
  - intros v. unfold apply.
    destruct (image (graph_of (fun v => v) order) v) as [w|] eqn:E;
      [|reflexivity].
    apply image_Some_In in E. unfold graph_of in E.
    apply in_map_iff in E. destruct E as [x [Ex _]]. congruence.
Qed.

Lemma compose_graph_of (f h : Mapping) :
  In f enumeration ->
  compose f h = graph_of (fun v => apply h (apply f v)) order.
Proof.
  intros Hf. destruct (enumeration_keys f Hf) as [Kf [Df _]].
  unfold compose, graph_of. rewrite <- Kf, map_map.
  apply map_ext_in. intros [v w] Hvw. simpl.
  now rewrite (apply_In f v w Df Hvw).
Qed.

Lemma inverse_graph_of (f : Mapping) :
  In f enumeration -> inverse f = graph_of (unapply f) order.
Proof.
  intros Hf. destruct (enumeration_keys f Hf) as [Kf _].
  unfold inverse, graph_of. now rewrite <- Kf, map_map.
Qed.

(** The composition of two enumerated mappings is enumerated, and it
    is the composition: first [f], then [h]. *)
Lemma enumeration_compose (f h : Mapping) :
  In f enumeration -> In h enumeration ->
  In (compose f h) enumeration
  /\ forall v, In v (vertex_ids g) ->
       apply (compose f h) v = apply h (apply f v).
Proof.
  intros Hf Hh.
  destruct (enumeration_sound f Hf) as [Af _].
  destruct (enumeration_sound h Hh) as [Ah _].
  rewrite (compose_graph_of f h Hf). split.
  - apply enumeration_complete. now apply automorphism_compose.
  - intros v Hv.
    apply (apply_graph_of (fun x => apply h (apply f x))). now apply order_In.
Qed.

(** The inverse of an enumerated mapping is enumerated, and it undoes
    the mapping on either side. *)
Lemma enumeration_inverse (f : Mapping) :
  In f enumeration ->
  In (inverse f) enumeration
  /\ forall v, In v (vertex_ids g) ->
       apply (inverse f) (apply f v) = v /\ apply f (apply (inverse f) v) = v.
Proof.
  intros Hf.
  destruct (enumeration_sound f Hf) as [Af _].
  destruct (enumeration_keys f Hf) as [Kf [Df If]].
  rewrite (inverse_graph_of f Hf). split.
  - apply enumeration_complete. now apply automorphism_inverse.
  - intros v Hv.
    rewrite (apply_graph_of (unapply f) order (apply f v)),
      (apply_graph_of (unapply f) order v).
    + split.
      * now apply unapply_apply.
      * now apply apply_unapply.
    + now apply order_In.
    + apply order_In. now apply (aut_closed _ _ Af).
Qed.

End AutomorphismFacts.

(** C3: for a Molecule (a graph that satisfies the simple-graph
    invariant) the enumeration of automorphisms returns a set that
    contains the identity mapping and is closed under composition and
    under inversion of mappings; it has at least one element, and the
    symmetry number is an integer that is at least 1, also when anchors
    are pinned. *)
Theorem automorphism_set_closed (selectivity : Invariant Atom -> nat)
    (M : Molecule) :
  simple_graph M = true ->
  exists auts,
    automorphisms selectivity M = Some auts
    /\ (exists i, In i auts
                  /\ forall v, In v (vertex_ids M) -> image i v = Some v)
    /\ (forall f h, In f auts -> In h auts ->
          In (compose f h) auts
          /\ forall v, In v (vertex_ids M) ->
               apply (compose f h) v = apply h (apply f v))
    /\ (forall f, In f auts ->
          In (inverse f) auts
          /\ forall v, In v (vertex_ids M) ->
               apply (inverse f) (apply f v) = v
               /\ apply f (apply (inverse f) v) = v)
    /\ 1 <= List.length auts
    /\ (exists n, symmetryNumber selectivity M = Some n /\ 1 <= n)
    /\ (forall anchors, exists n,
          localSymmetryNumber selectivity anchors M = Some n /\ 1 <= n).
Proof.
  intros S.
  pose proof (enumeration_identity atom_eqb bond_eqb atom_eqb_eq bond_eqb_eq
                M S selectivity) as Hid.
  assert (E : automorphisms selectivity M
              = Some (extend_all atom_eqb bond_eqb true M M
                        (search_order selectivity M) [])).
  { unfold automorphisms, all_mappings.
    now rewrite S, (size_match M). }
  assert (L : 1 <= List.length (extend_all atom_eqb bond_eqb true M M
                                  (search_order selectivity M) [])).
  { destruct Hid as [i [Hi _]].
    destruct (extend_all _ _ _ _ _ _ _); [destruct Hi | simpl; lia]. }
  eexists. split; [exact E|].
  split; [destruct Hid as [i [Hi [Hv _]]]; now exists i|].
  split; [|split; [|split; [exact L|split]]].
  - apply (enumeration_compose atom_eqb bond_eqb atom_eqb_eq bond_eqb_eq M S).
  - apply (enumeration_inverse atom_eqb bond_eqb atom_eqb_eq bond_eqb_eq M S).
  - unfold symmetryNumber. rewrite E. simpl. eexists. split; [reflexivity|].
    exact L.
  - intros anchors. unfold localSymmetryNumber. rewrite E. simpl.
    eexists. split; [reflexivity|].
    destruct Hid as [i [Hi [_ Hf]]].
    assert (K : In i (filter (fixes anchors)
                        (extend_all atom_eqb bond_eqb true M M
                           (search_order selectivity M) []))).
    { apply filter_In. split; [exact Hi|].
      unfold fixes. apply forallb_forall. intros a _.
      rewrite Hf. apply Nat.eqb_refl. }
    destruct (filter _ _); [destruct K | simpl; lia].
Qed.

Lemma automorphism_set_closed_witness :
  exists auts,
    automorphisms (@inv_degree Atom) Examples.ethene = Some auts
    /\ (exists i, In i auts
                  /\ forall v, In v (vertex_ids Examples.ethene) ->
                       image i v = Some v)
    /\ 1 <= List.length auts.
Proof.
  destruct (automorphism_set_closed (@inv_degree Atom) Examples.ethene)
    as [auts [E [I [_ [_ [L _]]]]]].
  - vm_compute. reflexivity.
  - exists auts. auto.
Defined.

(** ** The scenarios *)

Section Scenarios.

Import Examples.

Variable selectivity : Invariant Atom -> nat.

(** All vertices of the two six-membered rings have one and the same
    invariant, so they are matched in insertion order. *)
Lemma alternating_ring_order :
  search_order selectivity alternating_ring = [0; 1; 2; 3; 4; 5].
Proof.
  unfold search_order.
  rewrite (sort_by_constant _ (selectivity (invariant alternating_ring 0)));
    [reflexivity|].
  intros v Hv. f_equal.
  repeat (destruct Hv as [<-|Hv]; [vm_compute; reflexivity|]).
  destruct Hv.
Qed.

Lemma aromatic_ring_order :
  search_order selectivity aromatic_ring = [0; 1; 2; 3; 4; 5].
Proof.
  unfold search_order.
  rewrite (sort_by_constant _ (selectivity (invariant aromatic_ring 0)));
    [reflexivity|].
  intros v Hv. f_equal.
  repeat (destruct Hv as [<-|Hv]; [vm_compute; reflexivity|]).
  destruct Hv.
Qed.

Lemma ethene_order : search_order selectivity ethene = [0; 1].
Proof.
  unfold search_order.
  rewrite (sort_by_constant _ (selectivity (invariant ethene 0)));
    [reflexivity|].
  intros v Hv. f_equal.
  repeat (destruct Hv as [<-|Hv]; [vm_compute; reflexivity|]).
  destruct Hv.
Qed.

(** Scenario 1: the double bond between two like vertices has the
    identity and the swap as its automorphisms. *)
Lemma ethene_symmetry :
  automorphisms selectivity ethene = Some [[(1, 1); (0, 0)]; [(1, 0); (0, 1)]]
  /\ symmetryNumber selectivity ethene = Some 2.
Proof.
  unfold symmetryNumber, automorphisms, all_mappings.
  rewrite ethene_order. split; vm_compute; reflexivity.
Qed.

(** The six-membered ring with one bond label has the twelve symmetries
    of the hexagon. *)
Lemma aromatic_ring_symmetry :
  symmetryNumber selectivity aromatic_ring = Some 12.
Proof.
  unfold symmetryNumber, automorphisms, all_mappings.
  rewrite aromatic_ring_order. vm_compute. reflexivity.
Qed.

(** When corresponding edges must carry identical labels (section 4.5),
    the enumeration on the six-membered ring whose bonds alternate between
    single and aromatic and whose vertices carry one label returns the
    three rotations by an even number of places and the three reflections
    through the midpoints of opposite bonds. *)
Lemma alternating_ring_symmetry :
  automorphisms selectivity alternating_ring
  = Some [[(5, 5); (4, 4); (3, 3); (2, 2); (1, 1); (0, 0)];
          [(5, 2); (4, 3); (3, 4); (2, 5); (1, 0); (0, 1)];
          [(5, 1); (4, 0); (3, 5); (2, 4); (1, 3); (0, 2)];
          [(5, 4); (4, 5); (3, 0); (2, 1); (1, 2); (0, 3)];
          [(5, 3); (4, 2); (3, 1); (2, 0); (1, 5); (0, 4)];
          [(5, 0); (4, 1); (3, 2); (2, 3); (1, 4); (0, 5)]]
  /\ symmetryNumber selectivity alternating_ring = Some 6.
Proof.
  unfold symmetryNumber, automorphisms, all_mappings.
  rewrite alternating_ring_order. split; vm_compute; reflexivity.
Qed.

End Scenarios.

(** Scenario 3: the carbon with a double bond embeds in formaldehyde and
    does not embed in ethane, whatever the order of the search. *)
Lemma carbonyl_scenario (selectivity : Invariant (list Atom) -> nat) :
  (exists m, subgraph_isomorphism selectivity Examples.carbonyl_like
               Examples.formaldehyde = Match m)
  /\ subgraph_isomorphism selectivity Examples.carbonyl_like Examples.ethane
     = NoMatch.
Proof.
  split.
  - apply (find_mapping_complete matchesLabel matchesBond selectivity false
             Examples.carbonyl_like Examples.formaldehyde (fun v => v));
      try reflexivity.
    constructor; try discriminate.
    + intros v [<-|[<-|[]]]; vm_compute; eauto.
    + auto.
    + intros u v pl [<-|[<-|[]]] [<-|[<-|[]]]; vm_compute; intros E;
        try discriminate; injection E as <-; eauto.
  - destruct (subgraph_isomorphism selectivity Examples.carbonyl_like
                Examples.ethane) as [m| | |] eqn:E; try reflexivity.
    + exfalso. apply find_mapping_sound in E. destruct E as [_ [_ E]].
      destruct (emb_edge _ _ _ _ _ _ E 0 1 (OneOf [Double])) as [tl [A B]];
        simpl; auto.
      destruct (emb_vertex _ _ _ _ _ _ E 0) as [_ [t0 [_ [T0 _]]]];
        [simpl; auto|].
      destruct (emb_vertex _ _ _ _ _ _ E 1) as [_ [t1 [_ [T1 _]]]];
        [simpl; auto|].
      apply vertex_labels_In in T0, T1.
      destruct T0 as [T0|[T0|[]]]; destruct T1 as [T1|[T1|[]]];
        rewrite <- T0, <- T1 in A; vm_compute in A; try discriminate;
        injection A as <-; discriminate.
    + exfalso.
      now apply (unbounded_not_aborted matchesLabel matchesBond selectivity
                   false Examples.carbonyl_like Examples.ethane).
    + exfalso. unfold subgraph_isomorphism, find_mapping, run_query in E.
      change (simple_graph Examples.carbonyl_like) with true in E.
      change (simple_graph Examples.ethane) with true in E.
      simpl in E. rewrite search_first_unbounded in E.
      destruct (extend_all _ _ _ _ _ _ _); discriminate.
Qed.

(** ** Wildcard widening *)

(** C6: when [G2] widens [G1] (a correspondence of the vertices and
    edges under which every label set of [G2] is a superset of the one of
    [G1]) and the subgraph query finds an embedding of [G1] in a
    molecule, it finds an embedding of [G2] in that molecule as well. *)
Theorem widening_monotone
    (selectivity1 selectivity2 : Invariant (list Atom) -> nat)
    (G1 G2 : Group) (phi : VertexId -> VertexId) (M : Molecule) :
  simple_graph G2 = true ->
  widens G1 G2 phi ->
  (exists m1, subgraph_isomorphism selectivity1 G1 M = Match m1) ->
  exists m2, subgraph_isomorphism selectivity2 G2 M = Match m2.
Proof.
  intros S2 W [m1 H1].
  apply find_mapping_sound in H1. destruct H1 as [S1 [SM E1]].
  set (back := fun w => match find (fun v => phi v =? w) (vertex_ids G1) with
                        | Some v => v
                        | None => w
                        end).
  assert (B : forall w, In w (vertex_ids G2) ->
                In (back w) (vertex_ids G1) /\ phi (back w) = w).
  { intros w Hw. unfold back.
    destruct (find (fun v => phi v =? w) (vertex_ids G1)) as [v|] eqn:F.
    - apply find_some in F. destruct F as [Hv Ev].
      apply Nat.eqb_eq in Ev. auto.
    - exfalso. destruct (wid_onto _ _ _ W w Hw) as [v [Hv Ev]].
      apply (find_none _ _ F) in Hv. simpl in Hv.
      rewrite Ev, Nat.eqb_refl in Hv. discriminate. }
  apply (find_mapping_complete matchesLabel matchesBond selectivity2 false
           G2 M (fun w => apply m1 (back w)) S2 SM).
  constructor.
  - intros w Hw. destruct (B w Hw) as [Hu Eu].
    destruct (emb_vertex _ _ _ _ _ _ E1 _ Hu) as [l1 [tl [A1 [A2 A3]]]].
    destruct (In_vertex_labels G2 w Hw) as [l2 A4].
    exists l2, tl. split; [assumption | split; [assumption|]].
    rewrite <- Eu in A4.
    apply (wid_vertex _ _ _ W (back w) l1 l2 Hu A1 A4). exact A3.
  - intros w1 w2 H1 H2 Eq.
    destruct (B w1 H1) as [Hu1 Eu1]. destruct (B w2 H2) as [Hu2 Eu2].
    apply (emb_injective _ _ _ _ _ _ E1) in Eq; auto. congruence.
  - intros w1 w2 b2 H1 H2 Eb.
    destruct (B w1 H1) as [Hu1 Eu1]. destruct (B w2 H2) as [Hu2 Eu2].
    rewrite <- Eu1, <- Eu2 in Eb.
    destruct (edge_between G1 (back w1) (back w2)) as [b1|] eqn:A.
    + destruct (emb_edge _ _ _ _ _ _ E1 _ _ b1 Hu1 Hu2 A) as [tl [A1 A2]].
      exists tl. split; [assumption|].
      apply (wid_edge _ _ _ W _ _ b1 b2 Hu1 Hu2 A Eb). exact A2.
    + apply (wid_edges _ _ _ W _ _ Hu1 Hu2) in A. congruence.
  - discriminate.
  - discriminate.
Qed.

Lemma carbonyl_widened :
  widens Examples.carbonyl_like Examples.carbon_any_bond (fun v => v).
Proof.
  constructor.
  - intros v Hv. exact Hv.
  - intros w Hw. exists w. auto.
  - auto.
  - intros v l1 l2 Hv.
    destruct Hv as [<-|[<-|[]]]; intros E1 E2;
      vm_compute in E1, E2; injection E1 as <-; injection E2 as <-;
      intros a; unfold matchesLabel, existsb;
      destruct (atom_eqb a _), (atom_eqb a _); simpl; congruence.
  - intros u v Hu Hv.
    destruct Hu as [<-|[<-|[]]]; destruct Hv as [<-|[<-|[]]];
      vm_compute; split; intros E; first [reflexivity | discriminate].
  - intros u v b1 b2 Hu Hv.
    destruct Hu as [<-|[<-|[]]]; destruct Hv as [<-|[<-|[]]];
      vm_compute; intros E1 E2; try discriminate;
      injection E2 as <-; intros o _; reflexivity.
Defined.

Lemma widening_monotone_witness :
  exists m2,
    subgraph_isomorphism (@inv_degree (list Atom)) Examples.carbon_any_bond
      Examples.formaldehyde = Match m2.
Proof.
  apply (widening_monotone (@inv_degree (list Atom)) (@inv_degree (list Atom))
           Examples.carbonyl_like Examples.carbon_any_bond (fun v => v)
           Examples.formaldehyde).
  - vm_compute. reflexivity.
  - exact carbonyl_widened.
  - eexists. vm_compute. reflexivity.
Defined.

Lemma bounded_query_outcomes_witness :
  isomorphism_bounded (@inv_degree Atom) 5
    Examples.alternating_ring Examples.aromatic_ring = SearchAborted
  /\ isomorphism_bounded (@inv_degree Atom) 6
    Examples.alternating_ring Examples.aromatic_ring = NoMatch
  /\ ~ exists sigma,
        embedding atom_eqb bond_eqb true
          Examples.alternating_ring Examples.aromatic_ring sigma.
Proof.
  split; [|split].
  - apply (proj1 (bounded_query_outcomes atom_eqb bond_eqb (@inv_degree Atom)
                    true 5 Examples.alternating_ring Examples.aromatic_ring)).
    vm_compute. lia.
  - vm_compute. reflexivity.
  - apply (proj2 (proj2 (proj2 (bounded_query_outcomes atom_eqb bond_eqb
                    (@inv_degree Atom) true 6
                    Examples.alternating_ring Examples.aromatic_ring)))).
    vm_compute. reflexivity.
Defined.

End EngineProps.

(* ====================================================================== *)
(** * Further properties of the build manifest *)

Module ManifestProps.

Import Setup SetupProps.
Local Open Scope string_scope.
Local Open Scope list_scope.

(** The four outcomes of the selection without [install], and the one
    with it. *)
Lemma selection_cases (argv : list string) :
  (In "install" argv
   /\ select_ext_modules argv
      = Ok (mkState argv (getMainExtensionModules ++ getMeasureExtensionModules
                          ++ getSolverExtensionModules)))
  \/ (~ In "install" argv /\ In "main" argv
      /\ exists l1 l2, argv = l1 ++ "main" :: l2 /\ ~ In "main" l1
         /\ select_ext_modules argv
            = Ok (mkState (l1 ++ l2) getMainExtensionModules))
  \/ (~ In "install" argv /\ ~ In "main" argv /\ In "measure" argv
      /\ exists l1 l2, argv = l1 ++ "measure" :: l2 /\ ~ In "measure" l1
         /\ select_ext_modules argv
            = Ok (mkState (l1 ++ l2) getMeasureExtensionModules))
  \/ (~ In "install" argv /\ ~ In "main" argv /\ ~ In "measure" argv
      /\ In "solver" argv
      /\ exists l1 l2, argv = l1 ++ "solver" :: l2 /\ ~ In "solver" l1
         /\ select_ext_modules argv
            = Ok (mkState (l1 ++ l2) getSolverExtensionModules))
  \/ (~ In "install" argv /\ ~ In "main" argv /\ ~ In "measure" argv
      /\ ~ In "solver" argv
      /\ select_ext_modules argv = Ok (mkState argv [])).
Proof.
  unfold select_ext_modules. cbn [sys_argv].
  destruct (in_dec string_dec "install" argv) as [I|I]; keywords.
  { left. split; [assumption | reflexivity]. }
  right.
  destruct (in_dec string_dec "main" argv) as [A|A]; keywords.
  { left. split; [assumption|]. split; [assumption|].
    destruct (keyword_branch "main" getMainExtensionModules argv A)
      as [l1 [l2 [E [N R]]]].
    exists l1, l2. unfold main_branch. now rewrite R. }
  right.
  destruct (in_dec string_dec "measure" argv) as [B|B]; keywords.
  { left. repeat (split; [assumption|]).
    destruct (keyword_branch "measure" getMeasureExtensionModules argv B)
      as [l1 [l2 [E [N R]]]].
    exists l1, l2. unfold measure_branch. now rewrite R. }
  right.
  destruct (in_dec string_dec "solver" argv) as [C|C]; keywords.
  { left. repeat (split; [assumption|]).
    destruct (keyword_branch "solver" getSolverExtensionModules argv C)
      as [l1 [l2 [E [N R]]]].
    exists l1, l2. unfold solver_branch. now rewrite R. }
  right. repeat (split; [assumption|]). reflexivity.
Qed.

Lemma names_distinct (mods : list Extension) :
  nodup string_dec (map name mods) = map name mods -> NoDup (map name mods).
Proof.
  intros E. rewrite <- E. apply NoDup_nodup.
Qed.

(** X2: the module names handed to [setup] are pairwise distinct exactly
    when [install] is not on the command line; the install branch is the
    only one that joins lists which share names. *)
Theorem names_distinct_iff_not_install (argv : list string) :
  exists st,
    select_ext_modules argv = Ok st
    /\ (NoDup (map name (ext_modules st)) <-> ~ In "install" argv).
Proof.
  destruct (selection_cases argv)
    as [[I E]|[[I [_ [l1 [l2 [_ [_ E]]]]]]
       |[[I [_ [_ [l1 [l2 [_ [_ E]]]]]]]
       |[[I [_ [_ [_ [l1 [l2 [_ [_ E]]]]]]]]|[I [_ [_ [_ E]]]]]]]];
    rewrite E; eexists; (split; [reflexivity|]); cbn [ext_modules].
  - split; [|contradiction].
    intros D. exfalso.
    apply (nodup_fixed_point string_dec) in D.
    apply (f_equal (@List.length string)) in D. vm_compute in D. discriminate.
  - split; [auto|]. intros _. apply names_distinct. vm_compute. reflexivity.
  - split; [auto|]. intros _. apply names_distinct. vm_compute. reflexivity.
  - split; [auto|]. intros _. apply names_distinct. vm_compute. reflexivity.
  - split; [auto|]. intros _. constructor.
Qed.

(** X3: every extension handed to [setup] is built from exactly one
    source file, the file of its own module: the module name with the
    dots turned into slashes, followed by [.py] or [.pyx]. *)
Theorem sources_follow_names (argv : list string) :
  exists st,
    select_ext_modules argv = Ok st
    /\ forall e, In e (ext_modules st) ->
         sources e = [(Script.module_path (name e) ++ ".py")%string]
         \/ sources e = [(Script.module_path (name e) ++ ".pyx")%string].
Proof.
  assert (A : forall mods,
             forallb (fun e =>
               match sources e with
               | [src] => String.eqb src (Script.module_path (name e) ++ ".py")%string
                          || String.eqb src (Script.module_path (name e) ++ ".pyx")%string
               | _ => false
               end) mods = true ->
             forall e, In e mods ->
               sources e = [(Script.module_path (name e) ++ ".py")%string]
               \/ sources e = [(Script.module_path (name e) ++ ".pyx")%string]).
  { intros mods H e He. rewrite forallb_forall in H. specialize (H e He).
    destruct (sources e) as [|src [|? ?]]; try discriminate.
    apply orb_true_iff in H. destruct H as [H|H]; apply String.eqb_eq in H;
      subst; auto. }
  destruct (selection_cases argv)
    as [[I E]|[[I [_ [l1 [l2 [_ [_ E]]]]]]
       |[[I [_ [_ [l1 [l2 [_ [_ E]]]]]]]
       |[[I [_ [_ [_ [l1 [l2 [_ [_ E]]]]]]]]|[I [_ [_ [_ E]]]]]]]];
    rewrite E; eexists; (split; [reflexivity|]); cbn [ext_modules];
    apply A; vm_compute; reflexivity.
Qed.

(** X4: which modules are selected depends only on which of the four
    keywords occur on the command line, not on where or how often. *)
Theorem selection_by_keyword_set (argv1 argv2 : list string) :
  (forall kw, In kw ["install"; "main"; "measure"; "solver"] ->
     (In kw argv1 <-> In kw argv2)) ->
  exists st1 st2,
    select_ext_modules argv1 = Ok st1
    /\ select_ext_modules argv2 = Ok st2
    /\ ext_modules st1 = ext_modules st2.
Proof.
  intros H.
  assert (Hi := H "install"). assert (Ha := H "main").
  assert (Hb := H "measure"). assert (Hc := H "solver").
  simpl in Hi, Ha, Hb, Hc.
  destruct (selection_cases argv1)
    as [[I E]|[[I [A [l1 [l2 [_ [_ E]]]]]]
       |[[I [A [B [l1 [l2 [_ [_ E]]]]]]]
       |[[I [A [B [C [l1 [l2 [_ [_ E]]]]]]]]|[I [A [B [C E]]]]]]]];
  destruct (selection_cases argv2)
    as [[I' E']|[[I' [A' [k1 [k2 [_ [_ E']]]]]]
       |[[I' [A' [B' [k1 [k2 [_ [_ E']]]]]]]
       |[[I' [A' [B' [C' [k1 [k2 [_ [_ E']]]]]]]]|[I' [A' [B' [C' E']]]]]]]];
  try (exfalso; tauto);
  rewrite E, E'; eexists; eexists; repeat split; reflexivity.
Qed.

Lemma selection_by_keyword_set_witness :
  exists st1 st2,
    select_ext_modules ["setup.py"; "main"; "build_ext"] = Ok st1
    /\ select_ext_modules ["setup.py"; "build_ext"; "--inplace"; "main"; "main"]
       = Ok st2
    /\ ext_modules st1 = ext_modules st2.
Proof.
  apply selection_by_keyword_set.
  intros kw [<-|[<-|[<-|[<-|[]]]]]; simpl; split;
    intros H; repeat (destruct H as [H|H]; try discriminate H); auto 7.
Defined.

(** X5: a run with [install] selects every extension that any run
    selects. *)
Theorem install_selects_all (argv argv' : list string) :
  In "install" argv ->
  exists st st',
    select_ext_modules argv = Ok st
    /\ select_ext_modules argv' = Ok st'
    /\ incl (ext_modules st') (ext_modules st).
Proof.
  intros H.
  destruct (selection_cases argv) as [[_ E]|[[I _]|[[I _]|[[I _]|[I _]]]]];
    try contradiction.
  rewrite E.
  destruct (selection_cases argv')
    as [[I' E']|[[I' [A' [k1 [k2 [_ [_ E']]]]]]
       |[[I' [A' [B' [k1 [k2 [_ [_ E']]]]]]]
       |[[I' [A' [B' [C' [k1 [k2 [_ [_ E']]]]]]]]|[I' [A' [B' [C' E']]]]]]]];
    rewrite E'; eexists; eexists; (split; [reflexivity|]);
    (split; [reflexivity|]); cbn [ext_modules].
  - apply incl_refl.
  - apply incl_appl, incl_refl.
  - apply incl_appr, incl_appl, incl_refl.
  - apply incl_appr, incl_appr, incl_refl.
  - intros x [].
Qed.

Lemma install_selects_all_witness :
  exists st st',
    select_ext_modules ["setup.py"; "install"] = Ok st
    /\ select_ext_modules ["setup.py"; "build_ext"; "measure"] = Ok st'
    /\ incl (ext_modules st') (ext_modules st).
Proof.
  apply install_selects_all. simpl. auto.
Defined.

End ManifestProps.

(* ====================================================================== *)
(** * Properties of the whole script *)

Module ScriptProps.

Import Script.
Local Open Scope string_scope.
Local Open Scope list_scope.

(** The names bound and the notices printed once the imports are done. *)
Local Abbreviation bound env :=
  ((if numpy_module env then ["numpy"] else [])
   ++ (if cython_distutils env
       then (if cython_options env then ["Cython"; "build_ext"] else ["build_ext"])
       else [])
   ++ (if distutils_core env
       then (if distutils_extension env then ["Extension"; "setup"] else ["setup"])
       else [])).

Local Abbreviation notices env :=
  ((if distutils_core env && distutils_extension env then [] else [distutils_notice])
   ++ (if cython_distutils env && cython_options env then [] else [cython_notice])
   ++ (if numpy_module env then [] else [numpy_notice])).

Local Abbreviation defined name env :=
  (existsb (String.eqb name) (bound env)).

Local Abbreviation keyword_given args :=
  (Setup.contains "install" args || Setup.contains "main" args
   || Setup.contains "measure" args || Setup.contains "solver" args).

Lemma imports_run (env : Env) (args : list string) :
  imports env (mkWorld [] [] false args [])
  = (mkWorld (bound env) (notices env) false args [], inr tt).
Proof.
  destruct env as [a b c d e n]. destruct a, b, c, d, e; reflexivity.
Qed.

Lemma defined_names (env : Env) :
  defined "Cython" env = cython_distutils env && cython_options env
  /\ defined "Extension" env = distutils_core env && distutils_extension env
  /\ defined "setup" env = distutils_core env
  /\ defined "build_ext" env = cython_distutils env
  /\ defined "numpy" env = numpy_module env.
Proof.
  destruct env as [a b c d e n]. destruct a, b, c, d, e; repeat split.
Qed.

(** The selection when [Extension] is bound: it is the selection of the
    manifest. *)
Lemma selection_bound (w : World) :
  existsb (String.eqb "Extension") (globals w) = true ->
  exists st,
    Setup.select_ext_modules (argv w) = Setup.Ok st
    /\ selection w
       = (mkWorld (globals w) (stdout w) (annotate w) (Setup.sys_argv st)
                  (Setup.ext_modules st), inr tt).
Proof.
  intros B.
  assert (X : forall mods g o a v ms,
             g = globals w ->
             extend_with mods (mkWorld g o a v ms)
             = (mkWorld g o a v (ms ++ mods), inr tt)).
  { intros mods g o a v ms ->.
    unfold extend_with, call_modules, lookup, bind, ret. cbn [globals].
    now rewrite B. }
  assert (R : forall kw l1 l2 mods,
             Setup.list_remove kw (argv w) = Setup.Ok (l1 ++ l2) ->
             (argv_remove kw ;;; extend_with mods)
               (mkWorld (globals w) (stdout w) (annotate w) (argv w) [])
             = (mkWorld (globals w) (stdout w) (annotate w) (l1 ++ l2) mods,
                inr tt)).
  { intros kw l1 l2 mods E. unfold bind at 1, argv_remove. cbn [argv].
    rewrite E. now rewrite X. }
  unfold selection. unfold bind at 1. unfold bind at 1. unfold argv_contains at 1.
  cbn [argv].
  destruct (ManifestProps.selection_cases (argv w))
    as [[I E]|[[I [A [l1 [l2 [Ea [N E]]]]]]
       |[[I [A [C [l1 [l2 [Ea [N E]]]]]]]
       |[[I [A [C [D [l1 [l2 [Ea [N E]]]]]]]]|[I [A [C [D E]]]]]]]];
    rewrite E; eexists; (split; [reflexivity|]); cbn [Setup.sys_argv Setup.ext_modules].
  - rewrite (proj2 (SetupProps.contains_In _ _) I).
    unfold bind. rewrite !X by reflexivity. reflexivity.
  - rewrite (proj2 (SetupProps.contains_not_In _ _) I).
    unfold bind at 1, argv_contains at 1. cbn [argv].
    rewrite (proj2 (SetupProps.contains_In _ _) A).
    apply R.
    destruct (SetupProps.list_remove_first "main" (argv w) A)
      as [k1 [k2 [E1 [N1 R1]]]].
    rewrite R1. f_equal.
    unfold Setup.select_ext_modules in E. cbn [Setup.sys_argv] in E.
    rewrite (proj2 (SetupProps.contains_not_In _ _) I),
      (proj2 (SetupProps.contains_In _ _) A) in E.
    unfold Setup.main_branch, Setup.argv_remove, Setup.bind in E.
    cbn [Setup.sys_argv] in E. rewrite R1 in E. now injection E.
  - rewrite (proj2 (SetupProps.contains_not_In _ _) I).
    unfold bind at 1, argv_contains at 1. cbn [argv].
    rewrite (proj2 (SetupProps.contains_not_In _ _) A).
    unfold bind at 1, argv_contains at 1. cbn [argv].
    rewrite (proj2 (SetupProps.contains_In _ _) C).
    apply R.
    destruct (SetupProps.list_remove_first "measure" (argv w) C)
      as [k1 [k2 [E1 [N1 R1]]]].
    rewrite R1. f_equal.
    unfold Setup.select_ext_modules in E. cbn [Setup.sys_argv] in E.
    rewrite (proj2 (SetupProps.contains_not_In _ _) I),
      (proj2 (SetupProps.contains_not_In _ _) A),
      (proj2 (SetupProps.contains_In _ _) C) in E.
    unfold Setup.measure_branch, Setup.argv_remove, Setup.bind in E.
    cbn [Setup.sys_argv] in E. rewrite R1 in E. now injection E.
  - rewrite (proj2 (SetupProps.contains_not_In _ _) I).
    unfold bind at 1, argv_contains at 1. cbn [argv].
    rewrite (proj2 (SetupProps.contains_not_In _ _) A).
    unfold bind at 1, argv_contains at 1. cbn [argv].
    rewrite (proj2 (SetupProps.contains_not_In _ _) C).
    unfold bind at 1, argv_contains at 1. cbn [argv].
    rewrite (proj2 (SetupProps.contains_In _ _) D).
    apply R.
    destruct (SetupProps.list_remove_first "solver" (argv w) D)
      as [k1 [k2 [E1 [N1 R1]]]].
    rewrite R1. f_equal.
    unfold Setup.select_ext_modules in E. cbn [Setup.sys_argv] in E.
    rewrite (proj2 (SetupProps.contains_not_In _ _) I),
      (proj2 (SetupProps.contains_not_In _ _) A),
      (proj2 (SetupProps.contains_not_In _ _) C),
      (proj2 (SetupProps.contains_In _ _) D) in E.
    unfold Setup.solver_branch, Setup.argv_remove, Setup.bind in E.
    cbn [Setup.sys_argv] in E. rewrite R1 in E. now injection E.
  - rewrite (proj2 (SetupProps.contains_not_In _ _) I).
    unfold bind at 1, argv_contains at 1. cbn [argv].
    rewrite (proj2 (SetupProps.contains_not_In _ _) A).
    unfold bind at 1, argv_contains at 1. cbn [argv].
    rewrite (proj2 (SetupProps.contains_not_In _ _) C).
    unfold bind at 1, argv_contains at 1. cbn [argv].
    rewrite (proj2 (SetupProps.contains_not_In _ _) D).
    reflexivity.
Qed.

(** The selection when [Extension] is not bound: nothing happens
    without a keyword, and with one the first list to be built ends the
    run. *)
Lemma selection_unbound (w : World) :
  existsb (String.eqb "Extension") (globals w) = false ->
  (keyword_given (argv w) = false ->
     selection w
     = (mkWorld (globals w) (stdout w) (annotate w) (argv w) [], inr tt))
  /\ (keyword_given (argv w) = true ->
     exists a,
       selection w
       = (mkWorld (globals w) (stdout w) (annotate w) a [],
          inl (NameError "Extension"))).
Proof.
  intros B.
  assert (X : forall mods g o a v ms,
             g = globals w ->
             extend_with mods (mkWorld g o a v ms)
             = (mkWorld g o a v ms, inl (NameError "Extension"))).
  { intros mods g o a v ms ->.
    unfold extend_with, call_modules, lookup, bind, ret. cbn [globals].
    now rewrite B. }
  assert (R : forall kw mods,
             Setup.contains kw (argv w) = true ->
             exists a,
               (argv_remove kw ;;; extend_with mods)
                 (mkWorld (globals w) (stdout w) (annotate w) (argv w) [])
               = (mkWorld (globals w) (stdout w) (annotate w) a [],
                  inl (NameError "Extension"))).
  { intros kw mods C. apply SetupProps.contains_In in C.
    destruct (SetupProps.list_remove_first kw (argv w) C)
      as [l1 [l2 [_ [_ E]]]].
    exists (l1 ++ l2). unfold bind at 1, argv_remove. cbn [argv].
    rewrite E. now rewrite X. }
  unfold selection. cbv beta iota delta [bind argv_contains]. cbn [argv].
  destruct (Setup.contains "install" (argv w)) eqn:I.
  { split; [discriminate|]. intros _. exists (argv w). now rewrite X. }
  cbv beta iota. cbn [argv].
  destruct (Setup.contains "main" (argv w)) eqn:A.
  { split; [discriminate|]. intros _.
    exact (R "main" Setup.getMainExtensionModules A). }
  cbv beta iota. cbn [argv].
  destruct (Setup.contains "measure" (argv w)) eqn:C.
  { split; [discriminate|]. intros _.
    exact (R "measure" Setup.getMeasureExtensionModules C). }
  cbv beta iota. cbn [argv].
  destruct (Setup.contains "solver" (argv w)) eqn:D.
  { split; [discriminate|]. intros _.
    exact (R "solver" Setup.getSolverExtensionModules D). }
  split; [reflexivity | discriminate].
Qed.

Lemma bind_ok {A B : Type} (c : M A) (k : A -> M B) (w w' : World) (a : A) :
  c w = (w', inr a) -> bind c k w = k a w'.
Proof.
  intros E. unfold bind. now rewrite E.
Qed.

Lemma run_without_cython (env : Env) (args : list string) :
  cython_distutils env && cython_options env = false ->
  run env args
  = (mkWorld (bound env) (notices env) false args [], inl (NameError "Cython")).
Proof.
  intros C. unfold run, script.
  rewrite (bind_ok _ _ _ _ _ (imports_run env args)).
  unfold bind at 1, set_annotate, bind, lookup. cbn [globals].
  destruct (defined_names env) as [D _]. rewrite D, C. reflexivity.
Qed.

Lemma run_with_cython (env : Env) (args : list string) :
  cython_distutils env && cython_options env = true ->
  run env args
  = (selection ;;; call_setup env)
      (mkWorld (bound env) (notices env) true args []).
Proof.
  intros C. unfold run, script.
  rewrite (bind_ok _ _ _ _ _ (imports_run env args)).
  assert (S : set_annotate (mkWorld (bound env) (notices env) false args [])
              = (mkWorld (bound env) (notices env) true args [], inr tt)).
  { unfold set_annotate, bind, lookup. cbn [globals].
    destruct (defined_names env) as [D _]. rewrite D, C. reflexivity. }
  now rewrite (bind_ok _ _ _ _ _ S).
Qed.

Lemma call_setup_run (env : Env) (o : list string) (a : bool)
    (v : list string) (ms : list Setup.Extension) :
  cython_distutils env = true ->
  call_setup env (mkWorld (bound env) o a v ms)
  = if distutils_core env then
      if numpy_module env then
        (mkWorld (bound env) o a v ms,
         inr (mkSetupCall "RMG Py" "0.1.0" "Reaction Mechanism Generator"
                "William H. Green and the RMG Team" "rmg_dev@mit.edu"
                "http://rmg.mit.edu/" ["rmgpy"] scripts ["build_ext"]
                ms [numpy_include env]))
      else (mkWorld (bound env) o a v ms, inl (NameError "numpy"))
    else (mkWorld (bound env) o a v ms, inl (NameError "setup")).
Proof.
  intros C. destruct env as [dc de cd co np inc]. cbn in C. subst cd.
  destruct dc, de, co, np; reflexivity.
Qed.

(** All the runs, by what the environment offers and whether a keyword
    is given. *)
Lemma run_outcome (env : Env) (args : list string) :
  (cython_distutils env && cython_options env = false
   /\ run env args
      = (mkWorld (bound env) (notices env) false args [],
         inl (NameError "Cython")))
  \/ (cython_distutils env && cython_options env = true
      /\ distutils_core env && distutils_extension env = false
      /\ keyword_given args = true
      /\ exists a,
           run env args
           = (mkWorld (bound env) (notices env) true a [],
              inl (NameError "Extension")))
  \/ (cython_distutils env && cython_options env = true
      /\ (distutils_core env && distutils_extension env = true
          \/ keyword_given args = false)
      /\ exists st,
           Setup.select_ext_modules args = Setup.Ok st
           /\ run env args
              = call_setup env
                  (mkWorld (bound env) (notices env) true (Setup.sys_argv st)
                           (Setup.ext_modules st))).
Proof.
  destruct (bool_dec (cython_distutils env && cython_options env) true)
    as [C|C].
  2:{ apply not_true_is_false in C. left. split; [exact C|].
      now apply run_without_cython. }
  right. rewrite (run_with_cython env args C).
  destruct (defined_names env) as [_ [D _]].
  destruct (bool_dec (distutils_core env && distutils_extension env) true)
    as [X|X].
  - right. split; [exact C|]. split; [now left|].
    destruct (selection_bound (mkWorld (bound env) (notices env) true args []))
      as [st [E S]]; [cbn [globals]; now rewrite D|].
    exists st. split; [exact E|]. cbn [globals stdout annotate argv] in S.
    now rewrite (bind_ok _ _ _ _ _ S).
  - apply not_true_is_false in X.
    destruct (selection_unbound (mkWorld (bound env) (notices env) true args []))
      as [S0 S1]; [cbn [globals]; now rewrite D|].
    cbn [globals stdout annotate argv] in S0, S1.
    destruct (bool_dec (keyword_given args) true) as [K|K].
    + left. split; [exact C|]. split; [exact X|]. split; [exact K|].
      destruct (S1 K) as [a S]. exists a.
      unfold bind. now rewrite S.
    + apply not_true_is_false in K.
      right. split; [exact C|]. split; [now right|].
      exists (Setup.mkState args []). split.
      * pose proof K as K'.
        apply orb_false_iff in K'. destruct K' as [K' Kd].
        apply orb_false_iff in K'. destruct K' as [K' Kc].
        apply orb_false_iff in K'. destruct K' as [Ki Ka].
        unfold Setup.select_ext_modules. cbn [Setup.sys_argv].
        now rewrite Ki, Ka, Kc, Kd.
      * now rewrite (bind_ok _ _ _ _ _ (S0 K)).
Qed.

Lemma no_keyword_given (args : list string) :
  keyword_given args = false <->
  forall kw, In kw ["install"; "main"; "measure"; "solver"] -> ~ In kw args.
Proof.
  rewrite !orb_false_iff, !SetupProps.contains_not_In. split.
  - intros [[[Hi Ha] Hc] Hd] kw [<-|[<-|[<-|[<-|[]]]]]; assumption.
  - intros H. repeat split; apply H; simpl; auto.
Qed.

(** X1: the selection of lines 103-120 never raises the [ValueError] of
    [sys.argv.remove], which is reached only behind the test
    [kw in sys.argv].  Where [Extension] is bound it ends normally for
    every command line.  Where [Extension] is not bound, its import at
    line 35 having failed, it ends normally when none of the four keywords
    is given, and stops with [NameError] for [Extension] otherwise. *)
Theorem selection_outcomes (w : World) :
  (forall w', selection w <> (w', inl ValueError))
  /\ (existsb (String.eqb "Extension") (globals w) = true ->
      exists w', selection w = (w', inr tt))
  /\ (existsb (String.eqb "Extension") (globals w) = false ->
      (keyword_given (argv w) = false ->
         exists w', selection w = (w', inr tt))
      /\ (keyword_given (argv w) = true ->
         exists w', selection w = (w', inl (NameError "Extension")))).
Proof.
  destruct (bool_dec (existsb (String.eqb "Extension") (globals w)) true)
    as [B|B].
  - destruct (selection_bound w B) as [st [_ E]].
    split; [|split].
    + intros w' F. rewrite E in F. discriminate.
    + intros _. eauto.
    + intros F. congruence.
  - apply not_true_is_false in B.
    destruct (selection_unbound w B) as [N Y].
    split; [|split].
    + intros w' F.
      destruct (bool_dec (keyword_given (argv w)) true) as [K|K].
      * destruct (Y K) as [a E]. rewrite E in F. discriminate.
      * apply not_true_is_false in K. rewrite (N K) in F. discriminate.
    + intros F. congruence.
    + intros _. split.
      * intros K. rewrite (N K). eauto.
      * intros K. destruct (Y K) as [a E]. rewrite E. eauto.
Qed.

Lemma selection_outcomes_witness :
  (exists w',
     selection (mkWorld ["Extension"; "setup"] [] true
                        ["setup.py"; "build_ext"; "main"] [])
     = (w', inr tt))
  /\ (exists w',
       selection (mkWorld ["setup"] [] true
                          ["setup.py"; "build_ext"; "main"] [])
       = (w', inl (NameError "Extension")))
  /\ (exists w',
       selection (mkWorld ["setup"] [] true ["setup.py"; "build_ext"] [])
       = (w', inr tt)).
Proof.
  split; [|split].
  - apply (proj1 (proj2 (selection_outcomes
                           (mkWorld ["Extension"; "setup"] [] true
                                    ["setup.py"; "build_ext"; "main"] [])))).
    reflexivity.
  - apply (proj2 (proj2 (selection_outcomes
                           (mkWorld ["setup"] [] true
                                    ["setup.py"; "build_ext"; "main"] []))));
      reflexivity.
  - apply (proj2 (proj2 (selection_outcomes
                           (mkWorld ["setup"] [] true
                                    ["setup.py"; "build_ext"] []))));
      reflexivity.
Defined.

(** X6: when Cython cannot be imported the notice is printed, and the
    run then stops at line 51 with [NameError] for [Cython], whatever the
    command line; nothing is selected, [sys.argv] is untouched and
    [setup] is not called. *)
Theorem cython_missing_stops (env : Env) (args : list string) :
  cython_distutils env = false \/ cython_options env = false ->
  exists w,
    run env args = (w, inl (NameError "Cython"))
    /\ In cython_notice (stdout w)
    /\ argv w = args
    /\ ext_modules w = []
    /\ annotate w = false.
Proof.
  intros H.
  assert (C : cython_distutils env && cython_options env = false).
  { apply andb_false_iff. exact H. }
  eexists. split; [apply (run_without_cython env args C)|].
  cbn [stdout argv ext_modules annotate]. repeat split.
  rewrite C. apply in_or_app. right. apply in_or_app. left. now left.
Qed.

Lemma cython_missing_stops_witness :
  exists w,
    run (mkEnv true true true false true "/usr/lib/numpy/core/include")
        ["setup.py"; "build_ext"; "main"]
    = (w, inl (NameError "Cython"))
    /\ In cython_notice (stdout w)
    /\ argv w = ["setup.py"; "build_ext"; "main"].
Proof.
  destruct (cython_missing_stops
              (mkEnv true true true false true "/usr/lib/numpy/core/include")
              ["setup.py"; "build_ext"; "main"])
    as [w [R [O [A _]]]].
  - right. reflexivity.
  - exists w. auto.
Defined.

(** X7: [setup] is called exactly when [setup], Cython and numpy can be
    imported and, moreover, [Extension] can be imported or none of the
    four keywords is on the command line. *)
Theorem setup_called_iff (env : Env) (args : list string) :
  (exists w call, run env args = (w, inr call))
  <->
  (distutils_core env = true
   /\ cython_distutils env = true /\ cython_options env = true
   /\ numpy_module env = true
   /\ (distutils_extension env = true
       \/ forall kw, In kw ["install"; "main"; "measure"; "solver"] ->
            ~ In kw args)).
Proof.
  rewrite <- no_keyword_given.
  destruct (run_outcome env args)
    as [[C R]|[[C [X [K [a R]]]]|[C [X [st [E R]]]]]].
  - split.
    + intros [w [call F]]. rewrite R in F. discriminate.
    + intros [_ [A [B _]]]. rewrite A, B in C. discriminate.
  - split.
    + intros [w [call F]]. rewrite R in F. discriminate.
    + intros [A [_ [_ [_ [B|B]]]]].
      * rewrite A, B in X. discriminate.
      * rewrite B in K. discriminate.
  - apply andb_true_iff in C. destruct C as [C1 C2].
    rewrite (call_setup_run env _ _ _ _ C1) in R.
    split.
    + intros [w [call F]]. rewrite R in F.
      destruct (distutils_core env) eqn:A; [|discriminate].
      destruct (numpy_module env) eqn:B; [|discriminate].
      split; [reflexivity|]. split; [exact C1|]. split; [exact C2|].
      split; [reflexivity|].
      destruct X as [X|X]; [left | now right].
      now apply andb_true_iff in X.
    + intros [A [_ [_ [B _]]]]. rewrite A, B in R. eauto.
Qed.

(** X8: a run that stops before [setup] is entered, that is in the
    statements of lines 33-122 or while the callee and the arguments of
    the call of lines 125-136 are evaluated, stops with [NameError] for
    one of the names [Cython], [Extension], [setup] and [numpy]; up to
    there the [ImportError] of a failed import never escapes,
    [sys.argv.remove] never raises its [ValueError], and [build_ext] is
    never the missing name.  What [setup] itself does with the command
    line once it is called is outside [run]. *)
Theorem failure_before_setup (env : Env) (args : list string)
    (w : World) (e : exception) :
  run env args = (w, inl e) ->
  In e [NameError "Cython"; NameError "Extension"; NameError "setup";
        NameError "numpy"].
Proof.
  intros F.
  destruct (run_outcome env args)
    as [[C R]|[[C [X [K [a R]]]]|[C [X [st [E R]]]]]].
  - rewrite R in F. injection F as _ <-. simpl. auto.
  - rewrite R in F. injection F as _ <-. simpl. auto.
  - apply andb_true_iff in C. destruct C as [C1 C2].
    rewrite (call_setup_run env _ _ _ _ C1) in R. rewrite R in F.
    destruct (distutils_core env); [destruct (numpy_module env)|].
    + discriminate.
    + injection F as _ <-. simpl. auto.
    + injection F as _ <-. simpl. auto.
Qed.

Lemma failure_before_setup_witness :
  run (mkEnv true false true true true "/usr/lib/numpy/core/include")
      ["setup.py"; "build_ext"; "main"]
  = (mkWorld ["numpy"; "Cython"; "build_ext"; "setup"]
             [distutils_notice] true ["setup.py"; "build_ext"] [],
     inl (NameError "Extension"))
  /\ In (NameError "Extension")
        [NameError "Cython"; NameError "Extension"; NameError "setup";
         NameError "numpy"].
Proof.
  assert (R : run (mkEnv true false true true true "/usr/lib/numpy/core/include")
                  ["setup.py"; "build_ext"; "main"]
              = (mkWorld ["numpy"; "Cython"; "build_ext"; "setup"]
                         [distutils_notice] true ["setup.py"; "build_ext"] [],
                 inl (NameError "Extension"))).
  { vm_compute. reflexivity. }
  split; [exact R|].
  exact (failure_before_setup _ _ _ _ R).
Defined.

(** X9: when [setup] is called, it is called with the extension modules
    that the selection of the manifest yields for the command line, with
    the three scripts, the Cython [build_ext] command and numpy's include
    directory; [sys.argv] is then what the selection has left, and the
    annotation of the Cython modules is switched on. *)
Theorem setup_call_arguments (env : Env) (args : list string)
    (w : World) (call : SetupCall) :
  run env args = (w, inr call) ->
  exists st,
    Setup.select_ext_modules args = Setup.Ok st
    /\ call = mkSetupCall "RMG Py" "0.1.0" "Reaction Mechanism Generator"
                "William H. Green and the RMG Team" "rmg_dev@mit.edu"
                "http://rmg.mit.edu/" ["rmgpy"]
                ["cantherm.py"; "measure.py"; "rmg.py"] ["build_ext"]
                (Setup.ext_modules st) [numpy_include env]
    /\ argv w = Setup.sys_argv st
    /\ ext_modules w = Setup.ext_modules st
    /\ annotate w = true.
Proof.
  intros F.
  destruct (run_outcome env args)
    as [[C R]|[[C [X [K [a R]]]]|[C [X [st [E R]]]]]].
  - rewrite R in F. discriminate.
  - rewrite R in F. discriminate.
  - apply andb_true_iff in C. destruct C as [C1 C2].
    rewrite (call_setup_run env _ _ _ _ C1) in R. rewrite R in F.
    destruct (distutils_core env); [|discriminate].
    destruct (numpy_module env); [|discriminate].
    injection F as <- <-. exists st. repeat split. exact E.
Qed.

Lemma setup_call_arguments_witness :
  exists st,
    Setup.select_ext_modules ["setup.py"; "build_ext"; "solver"] = Setup.Ok st
    /\ Setup.sys_argv st = ["setup.py"; "build_ext"]
    /\ Setup.ext_modules st = Setup.getSolverExtensionModules
    /\ call_ext_modules
         (mkSetupCall "RMG Py" "0.1.0" "Reaction Mechanism Generator"
            "William H. Green and the RMG Team" "rmg_dev@mit.edu"
            "http://rmg.mit.edu/" ["rmgpy"]
            ["cantherm.py"; "measure.py"; "rmg.py"] ["build_ext"]
            Setup.getSolverExtensionModules ["/usr/lib/numpy/core/include"])
       = Setup.ext_modules st.
Proof.
  destruct (setup_call_arguments
              (mkEnv true true true true true "/usr/lib/numpy/core/include")
              ["setup.py"; "build_ext"; "solver"]
              (mkWorld ["numpy"; "Cython"; "build_ext"; "Extension"; "setup"]
                       [] true ["setup.py"; "build_ext"]
                       Setup.getSolverExtensionModules)
              (mkSetupCall "RMG Py" "0.1.0" "Reaction Mechanism Generator"
                 "William H. Green and the RMG Team" "rmg_dev@mit.edu"
                 "http://rmg.mit.edu/" ["rmgpy"]
                 ["cantherm.py"; "measure.py"; "rmg.py"] ["build_ext"]
                 Setup.getSolverExtensionModules
                 ["/usr/lib/numpy/core/include"]))
    as [st [E [_ [A [B _]]]]].
  - vm_compute. reflexivity.
  - exists st. cbn [argv ext_modules] in A, B. cbn [call_ext_modules]. auto.
Defined.

(** X10: what is printed depends on the imports alone: one notice for
    each [try] block in which an import fails, in the order distutils,
    Cython, NumPy, and nothing else, whether the run then reaches [setup]
    or stops. *)
Theorem printed_notices (env : Env) (args : list string) :
  stdout (fst (run env args))
  = (if distutils_core env && distutils_extension env
     then [] else [distutils_notice])
    ++ (if cython_distutils env && cython_options env
        then [] else [cython_notice])
    ++ (if numpy_module env then [] else [numpy_notice]).
Proof.
  destruct (run_outcome env args)
    as [[C R]|[[C [X [K [a R]]]]|[C [X [st [E R]]]]]].
  - now rewrite R.
  - now rewrite R.
  - pose proof C as C'. apply andb_true_iff in C'. destruct C' as [C1 C2].
    rewrite (call_setup_run env _ _ _ _ C1) in R. rewrite R.
    destruct (distutils_core env); [destruct (numpy_module env)|];
      reflexivity.
Qed.

End ScriptProps.
